(** * obsidian-todo: the task line parser and the change classifier

    A shallow embedding of [src/TaskParser.ts] and of the event handlers of
    [main.ts] (and of the second copy of the plugin class kept next to it),
    with the properties of the synchronisation engine stated over them.

    Conventions.
    - A JavaScript string is a [string]; each [ascii] stands for the UTF-16
      code unit of the same value, so the development covers the strings
      over U+0000..U+00FF.
    - A regular expression literal is a term of [regex]; [run] is the
      backtracking matcher of ECMAScript written as a list of successes in
      priority order, so that the head of the list is the match the engine
      returns.
    - A JavaScript object used as a record of named properties is a
      [gmap string _]; an object whose enumeration order is observable is an
      association list in property order ([jsobj]).
    - A function that may throw returns a [completion]. *)

From Stdlib Require Import Ascii String ZArith Lia Sorted.
From stdpp Require Import gmap strings list fin_maps pretty.

Local Open Scope string_scope.
Local Open Scope list_scope.

(* ===================================================================== *)
(** ** Characters and strings *)
(* ===================================================================== *)

Module Js.

Definition code (c : ascii) : nat := nat_of_ascii c.

(** [WhiteSpace] and [LineTerminator] of ECMAScript below U+0100: TAB, LF,
    VT, FF, CR, SP and NBSP. This is the set of [\s] and of [trim]. *)
Definition is_space (c : ascii) : bool :=
  let n := code c in
  (Nat.leb 9 n && Nat.leb n 13) || Nat.eqb n 32 || Nat.eqb n 160.

(** [LineTerminator] below U+0100: LF and CR. *)
Definition is_line_terminator (c : ascii) : bool :=
  let n := code c in Nat.eqb n 10 || Nat.eqb n 13.

Definition chars (s : string) : list ascii := list_ascii_of_string s.
Definition str (l : list ascii) : string := string_of_list_ascii l.

Fixpoint skip_space (l : list ascii) : list ascii :=
  match l with
  | c :: l' => if is_space c then skip_space l' else l
  | [] => []
  end.

(** [String.prototype.trim] *)
Definition trim_chars (l : list ascii) : list ascii :=
  rev (skip_space (rev (skip_space l))).

Definition trim (s : string) : string := str (trim_chars (chars s)).

(** [String.prototype.includes] *)
Fixpoint starts_with (p l : list ascii) : bool :=
  match p, l with
  | [], _ => true
  | a :: p', b :: l' => Ascii.eqb a b && starts_with p' l'
  | _ :: _, [] => false
  end.

Fixpoint includes_chars (l p : list ascii) : bool :=
  starts_with p l ||
  match l with
  | [] => false
  | _ :: l' => includes_chars l' p
  end.

Definition includes (s sub : string) : bool :=
  includes_chars (chars s) (chars sub).

(** Values, as far as the modelled code builds or inspects them. *)
Inductive value : Type :=
| Undefined
| Null
| Bool (b : bool)
| Num (n : Z)
| NaN
| Str (s : string)
| Ref (address : nat).                (* an array or object, by identity *)

#[global] Instance value_eq_dec : EqDecision value.
Proof. solve_decision. Defined.

(** [o.k]: the value of a property, [undefined] when the object has none. *)
Definition prop (o : gmap string value) (k : string) : value :=
  default Undefined (o !! k).

(** [a === b]; [NaN] equals nothing. *)
Definition strict_equals (a b : value) : bool :=
  match a, b with
  | NaN, _ | _, NaN => false
  | _, _ => bool_decide (a = b)
  end.

(** What a call can end in. *)
Inductive error : Type :=
| Error (message : string)
| TypeError.

Inductive completion (A : Type) : Type :=
| Normal (a : A)
| Throw (e : error).
Arguments Normal {A} a.
Arguments Throw {A} e.

End Js.

(* ===================================================================== *)
(** ** Regular expressions *)
(* ===================================================================== *)

Module Regex.
Import Js.

(** Character sets of the patterns of [TaskParser.ts]. *)
Inductive cset : Type :=
| Lit (c : ascii)                     (* a literal character *)
| Space                               (* \s *)
| NonSpace                            (* \S *)
| NoneOf (c : ascii)                  (* [^c] *)
| Dot                                 (* .  (no s flag) *)
| AlphaNum                            (* [0-9A-Za-z] *)
| Union (a b : cset).                 (* [ab] *)

Definition in_range (lo hi : nat) (c : ascii) : bool :=
  Nat.leb lo (code c) && Nat.leb (code c) hi.

Fixpoint cset_mem (cs : cset) (c : ascii) : bool :=
  match cs with
  | Lit a => Ascii.eqb a c
  | Space => is_space c
  | NonSpace => negb (is_space c)
  | NoneOf a => negb (Ascii.eqb a c)
  | Dot => negb (is_line_terminator c)
  | AlphaNum => in_range 48 57 c || in_range 65 90 c || in_range 97 122 c
  | Union a b => cset_mem a c || cset_mem b c
  end.

Inductive regex : Type :=
| Chr (cs : cset)
| Seq (r1 r2 : regex)
| Alt (r1 r2 : regex)                 (* r1|r2 *)
| Opt (r : regex)                     (* r?  greedy *)
| Star (r : regex)                    (* r*  greedy *)
| Group (name : string) (r : regex)   (* (?<name>r) *)
| Bol                                 (* ^ *)
| Eol.                                (* $ *)

(** r+ *)
Definition Plus (r : regex) : regex := Seq r (Star r).

(** A literal character of a pattern. *)
Definition lit (c : ascii) : regex := Chr (Lit c).

Fixpoint has_named_group (r : regex) : bool :=
  match r with
  | Chr _ | Bol | Eol => false
  | Seq a b | Alt a b => has_named_group a || has_named_group b
  | Opt a | Star a => has_named_group a
  | Group _ _ => true
  end.

(** A matcher state: the character before the current position (none at the
    start of the input), the input still to be read, and the captures. *)
Record mstate : Type := MState {
  prev : option ascii;
  rest : list ascii;
  caps : gmap string string
}.

Definition consumed (st st' : mstate) : list ascii :=
  take (length (rest st) - length (rest st')) (rest st).

Definition at_line_start (multiline : bool) (st : mstate) : bool :=
  match prev st with
  | None => true
  | Some c => multiline && is_line_terminator c
  end.

Definition at_line_end (multiline : bool) (st : mstate) : bool :=
  match rest st with
  | [] => true
  | c :: _ => multiline && is_line_terminator c
  end.

(** Greedy iteration. An iteration that consumes nothing is rejected, as in
    RepeatMatcher; [fuel] bounds the number of iterations by the length of
    the remaining input. *)
Fixpoint star (step : mstate -> list mstate) (fuel : nat) (st : mstate)
  : list mstate :=
  match fuel with
  | 0 => [st]
  | S n =>
      flat_map (fun st' =>
                  if Nat.ltb (length (rest st')) (length (rest st))
                  then star step n st' else [])
               (step st)
      ++ [st]
  end.

(** All the ways [r] matches at [st], in the order in which the
    backtracking matcher tries them. *)
Fixpoint run (multiline : bool) (r : regex) (st : mstate) : list mstate :=
  match r with
  | Chr cs =>
      match rest st with
      | c :: s => if cset_mem cs c then [MState (Some c) s (caps st)] else []
      | [] => []
      end
  | Seq a b => flat_map (run multiline b) (run multiline a st)
  | Alt a b => run multiline a st ++ run multiline b st
  | Opt a =>
      List.filter
        (fun st' => Nat.ltb (length (rest st')) (length (rest st)))
        (run multiline a st)
      ++ [st]
  | Star a => star (run multiline a) (length (rest st)) st
  | Group name a =>
      map (fun st' =>
             MState (prev st') (rest st')
                    (<[name := str (consumed st st')]> (caps st')))
          (run multiline a st)
  | Bol => if at_line_start multiline st then [st] else []
  | Eol => if at_line_end multiline st then [st] else []
  end.

(** A regular expression object: its pattern and the flags g and m. *)
Record RegExp : Type := mkRegExp {
  pattern : regex;
  global : bool;
  multiline : bool
}.

(** The first match at the current position. *)
Definition exec_here (re : RegExp) (p : option ascii) (s : list ascii)
  : option mstate :=
  head (run (multiline re) (pattern re) (MState p s ∅)).

(** The leftmost position, from the current one on, at which the pattern
    matches: [(index, input from that index on, final state)]. *)
Fixpoint find_match (re : RegExp) (p : option ascii) (s : list ascii)
  (idx : nat) : option (nat * list ascii * mstate) :=
  match exec_here re p s with
  | Some st' => Some (idx, s, st')
  | None =>
      match s with
      | [] => None
      | c :: s' => find_match re (Some c) s' (S idx)
      end
  end.

Definition matched_text (from : list ascii) (st' : mstate) : list ascii :=
  take (length from - length (rest st')) from.

(** The loop of RegExp.prototype[Symbol.match] for a global pattern: the
    matched substrings, left to right; after an empty match the position
    advances by one. *)
Fixpoint match_all (fuel : nat) (re : RegExp) (p : option ascii)
  (s : list ascii) : list string :=
  match fuel with
  | 0 => []
  | S n =>
      match find_match re p s 0 with
      | None => []
      | Some (_, from, st') =>
          let m := matched_text from st' in
          str m ::
          match m, from with
          | [], [] => []
          | [], c :: from' => match_all n re (Some c) from'
          | _ :: _, _ => match_all n re (prev st') (rest st')
          end
      end
  end.

(** The array RegExp.prototype.exec returns. [groups] is undefined when the
    pattern has no named group. *)
Record exec_array : Type := ExecArray {
  index : nat;
  whole : string;
  groups : option (gmap string string)
}.

(** What [String.prototype.match] returns: [null], the exec array of the
    first match (pattern without g), or the plain array of all the matched
    substrings (pattern with g), which has no [groups] property. *)
Inductive match_result : Type :=
| MatchNull
| MatchExec (m : exec_array)
| MatchList (l : list string).

Definition string_match (s : string) (re : RegExp) : match_result :=
  if global re then
    match match_all (S (length (chars s))) re None (chars s) with
    | [] => MatchNull
    | l => MatchList l
    end
  else
    match find_match re None (chars s) 0 with
    | None => MatchNull
    | Some (i, from, st') =>
        MatchExec (ExecArray i (str (matched_text from st'))
                     (if has_named_group (pattern re)
                      then Some (caps st') else None))
    end.

(** A regular expression object also carries the mutable property
    [lastIndex]. RegExpBuiltinExec, for a pattern without the flag y: the
    search starts at [lastIndex] only under the flag g, and only under that
    flag is [lastIndex] written. The result comes with the [lastIndex] the
    call leaves. *)
Definition char_before (s : list ascii) (i : nat) : option ascii :=
  last (take i s).

Definition regexp_exec (re : RegExp) (lastIndex : nat) (s : list ascii)
  : option (nat * list ascii * mstate) * nat :=
  let start := if global re then lastIndex else 0 in
  if Nat.ltb (length s) start
  then (None, if global re then 0 else lastIndex)
  else
    match find_match re (char_before s start) (drop start s) start with
    | None => (None, if global re then 0 else lastIndex)
    | Some (i, from, st') =>
        (Some (i, from, st'),
         if global re then length s - length (rest st') else lastIndex)
    end.

(** [String.prototype.match] with the state of the pattern: under the flag
    g the loop starts by setting [lastIndex] to 0 and ends on a failed
    exec, which leaves it 0; without g it is one exec. *)
Definition string_match_st (s : string) (re : RegExp) (lastIndex : nat)
  : match_result * nat :=
  if global re then (string_match s re, 0)
  else
    match regexp_exec re lastIndex (chars s) with
    | (None, li) => (MatchNull, li)
    | (Some (i, from, st'), li) =>
        (MatchExec (ExecArray i (str (matched_text from st'))
                      (if has_named_group (pattern re)
                       then Some (caps st') else None)),
         li)
    end.

(** [match.groups] of a non-null result. *)
Definition groups_of (m : match_result) : option (gmap string string) :=
  match m with
  | MatchExec e => groups e
  | MatchList _ | MatchNull => None
  end.

End Regex.

(* ===================================================================== *)
(** ** src/TaskParser.ts *)
(* ===================================================================== *)

Module TaskParserTs.
Import Js Regex.

Notation "a ⋅ b" := (Seq a b) (at level 41, right associativity).

(** The module constant [strictPattern], with flags g and m. Its source,
    piece by piece in the order of the term below:
      ^   \s*   (?:-|\* )   " "   \[   (?<complete>\s|x)?   \]   \s+
      (?<taskLine>\S[^\^]* )   (?: \^(?<id>[0-9A-Za-z]+))?   $          *)
Definition strictPattern : RegExp :=
  mkRegExp
    (Bol ⋅ Star (Chr Space) ⋅ Alt (lit "-") (lit "*") ⋅ lit " " ⋅ lit "["
       ⋅ Opt (Group "complete" (Alt (Chr Space) (lit "x"))) ⋅ lit "]"
       ⋅ Plus (Chr Space)
       ⋅ Group "taskLine" (Chr NonSpace ⋅ Star (Chr (NoneOf "^")))
       ⋅ Opt (lit " " ⋅ lit "^" ⋅ Group "id" (Plus (Chr AlphaNum)))
       ⋅ Eol)
    true true.

Module TaskParser.

(** The static member [TaskParser.strictPattern], without flags. Its
    source, piece by piece in the order of the term below:
      (?:-|\* )   " "   \[   (?<complete>\s|x)?   \]   \s+
      (?<taskLine>\S[^\^]* )   \^?   .*   $                          *)
Definition strictPattern : RegExp :=
  mkRegExp
    (Alt (lit "-") (lit "*") ⋅ lit " " ⋅ lit "["
       ⋅ Opt (Group "complete" (Alt (Chr Space) (lit "x"))) ⋅ lit "]"
       ⋅ Plus (Chr Space)
       ⋅ Group "taskLine" (Chr NonSpace ⋅ Star (Chr (NoneOf "^")))
       ⋅ Opt (lit "^") ⋅ Star (Chr Dot) ⋅ Eol)
    false false.

(** The static member [TaskParser.generalPattern], without flags; no
    function of the file uses it. Its source, piece by piece:
      (?:-|\* )   \s*   \[   (?<complete>[\sxX]* )   \]   \s*
      (?<taskLine>\S.* )                                                *)
Definition generalPattern : RegExp :=
  mkRegExp
    (Alt (lit "-") (lit "*") ⋅ Star (Chr Space) ⋅ lit "["
       ⋅ Group "complete"
           (Star (Chr (Union Space (Union (Lit "x") (Lit "X")))))
       ⋅ lit "]" ⋅ Star (Chr Space)
       ⋅ Group "taskLine" (Chr NonSpace ⋅ Star (Chr Dot)))
    false false.

Section ParseLine.
(** [emptyTask] is imported from "./Task". *)
Variable emptyTask : gmap string value.

(** [static parseLine(line: string): ITask | null] *)
Definition parseLine (line : string)
  : completion (option (gmap string value)) :=
  match string_match line strictPattern with
  | MatchNull => Normal None
  | m =>
      match groups_of m with
      | None => Throw TypeError          (* destructuring undefined *)
      | Some g =>
          let complete := g !! "complete" in
          match g !! "taskLine" with
          | None => Throw TypeError      (* undefined.trim() *)
          | Some taskLine =>
              Normal (Some
                (<["name" := Str (trim taskLine)]>
                   (<["complete" :=
                        Bool (bool_decide (complete = Some "x"))]>
                      emptyTask)))
          end
      end
  end.
End ParseLine.

End TaskParser.

(** [Number.parseInt(s)] without a radix: leading white space and a sign
    are skipped, a prefix 0x or 0X selects base 16, and the longest prefix
    of digits is read; [NaN] when there is none. The value is exact, where
    a JavaScript number rounds above 2^53. *)
Definition digit_value (c : ascii) : option nat :=
  if in_range 48 57 c then Some (code c - 48)
  else if in_range 97 122 c then Some (code c - 87)
  else if in_range 65 90 c then Some (code c - 55)
  else None.

Fixpoint read_digits (radix : nat) (l : list ascii) (acc : option Z)
  : option Z :=
  match l with
  | c :: l' =>
      match digit_value c with
      | Some d =>
          if Nat.ltb d radix
          then read_digits radix l'
                 (Some (default 0%Z acc * Z.of_nat radix + Z.of_nat d)%Z)
          else acc
      | None => acc
      end
  | [] => acc
  end.

Definition parseInt (s : string) : value :=
  let l := skip_space (chars s) in
  let '(negative, l) :=
    match l with
    | "-"%char :: l' => (true, l')
    | "+"%char :: l' => (false, l')
    | _ => (false, l)
    end in
  let '(radix, l) :=
    match l with
    | "0"%char :: "x"%char :: l' => (16, l')
    | "0"%char :: "X"%char :: l' => (16, l')
    | _ => (10, l)
    end in
  match read_digits radix l None with
  | None => NaN
  | Some n => Num (if negative then - n else n)%Z
  end.

(** [contents.split(/(\r|\n)/g)]: the pieces between the separators, with
    every separator spliced in after the piece it ends, because the
    separator pattern captures it. *)
Fixpoint split_keep (piece : list ascii) (s : list ascii) : list string :=
  match s with
  | [] => [str (rev piece)]
  | c :: s' =>
      if is_line_terminator c
      then str (rev piece) :: str [c] :: split_keep [] s'
      else split_keep (c :: piece) s'
  end.

(** The part of obsidian's [ListItemCache] and [CachedMetadata] that
    [parseFileContents] reads; [listItems] is an optional property. *)
Record ListItemCache : Type := mkListItemCache {
  task : option string;
  position_start_line : nat;
  parent : Z
}.

Record CachedMetadata : Type := mkCachedMetadata {
  listItems : option (list ListItemCache)
}.

(** [li.task] as a condition: a non-empty string. *)
Definition truthy_string (o : option string) : bool :=
  match o with
  | Some (String _ _) => true
  | _ => false
  end.

#[warnings="-register-all"]
Inductive AnonymousDisplayTask : Type := mkAnonymousDisplayTask {
  adt_complete : bool;
  adt_name : string;
  adt_location : string * nat;                   (* filePath, line *)
  adt_id : option value;
  adt_parent : option AnonymousDisplayTask
}.

Section ParseFileContents.
Variable filePath : string.
Variable lines : list string.

(** The body of the loop over [cacheTasks], with [ret] threaded. *)
Fixpoint parseCacheTasks (cacheTasks : list ListItemCache)
  (ret : gmap nat AnonymousDisplayTask)
  : completion (gmap nat AnonymousDisplayTask) :=
  match cacheTasks with
  | [] => Normal ret
  | cacheListItem :: more =>
      let lineNum := position_start_line cacheListItem in
      if Nat.leb (length lines) lineNum then
        Throw (Error "Cache line number cannot be longer than file lines.")
      else
        match lines !! lineNum with
        | None => Throw TypeError
        | Some line =>
            match string_match line strictPattern with
            | MatchNull => parseCacheTasks more ret
            | m =>
                match groups_of m with
                | None => Throw TypeError   (* destructuring undefined *)
                | Some g =>
                    match g !! "taskLine" with
                    | None => Throw TypeError
                    | Some taskLine =>
                        let task :=
                          mkAnonymousDisplayTask
                            (bool_decide (g !! "complete" = Some "x"))
                            (trim taskLine)
                            (filePath, lineNum)
                            (match g !! "id" with
                             | Some (String a id') =>
                                 Some (parseInt (String a id'))
                             | _ => None
                             end)
                            (if Z.ltb (-1) (parent cacheListItem)
                             then ret !! Z.to_nat (parent cacheListItem)
                             else None) in
                        parseCacheTasks more (<[lineNum := task]> ret)
                    end
                end
            end
        end
  end.
End ParseFileContents.

(** [export const parseFileContents = (filePath, contents, fileCache) => ...] *)
Definition parseFileContents (filePath : string) (contents : string)
  (fileCache : CachedMetadata)
  : completion (gmap nat AnonymousDisplayTask) :=
  match listItems fileCache with
  | None => Throw TypeError                   (* undefined.filter *)
  | Some items =>
      let cacheTasks := List.filter (fun li => truthy_string (task li)) items in
      let lines := split_keep [] (chars contents) in
      parseCacheTasks filePath lines cacheTasks ∅
  end.

End TaskParserTs.

(* ===================================================================== *)
(** ** Objects in property order *)
(* ===================================================================== *)

Module JsObj.

(** An object whose own properties are enumerated ([values], spread,
    hashing): the properties in creation order. Keys are taken not to be
    array indices, which JavaScript would enumerate first. *)
Definition jsobj (V : Type) : Type := list (string * V).

Section Ops.
Context {V : Type}.

Fixpoint get (o : jsobj V) (k : string) : option V :=
  match o with
  | [] => None
  | (k', v) :: o' => if String.eqb k k' then Some v else get o' k
  end.

(** [k in o] *)
Definition has (o : jsobj V) (k : string) : bool :=
  match get o k with Some _ => true | None => false end.

(** [o[k] = v], and [{...o, [k]: v}] on a copy *)
Fixpoint set (o : jsobj V) (k : string) (v : V) : jsobj V :=
  match o with
  | [] => [(k, v)]
  | (k', v') :: o' =>
      if String.eqb k k' then (k, v) :: o' else (k', v') :: set o' k v
  end.

(** [delete o[k]] *)
Fixpoint remove (o : jsobj V) (k : string) : jsobj V :=
  match o with
  | [] => []
  | (k', v') :: o' =>
      if String.eqb k k' then remove o' k else (k', v') :: remove o' k
  end.

(** lodash [values(o)] *)
Definition values (o : jsobj V) : list V := map snd o.
End Ops.

End JsObj.

(* ===================================================================== *)
(** ** The plugin: what main.ts and its second copy share *)
(* ===================================================================== *)

Module Plugin.
Import Js JsObj.

(** A [TAbstractFile] of the host: a [TFile] or a [TFolder], with its path.
    [oid] is the identity of the object, which [!==] compares. *)
Record TAbstractFile : Type := mkFile {
  isTFile : bool;
  path : string;
  oid : nat
}.

Definition same_object (a b : TAbstractFile) : bool := Nat.eqb (oid a) (oid b).

(** The active [MarkdownView]: its file and the line of the editor cursor. *)
Record MarkdownView : Type := mkView {
  view_file : TAbstractFile;
  cursor_line : nat
}.

(** A [TaskInstance] is an object with, among others, the properties [uid]
    and [filePath]. *)
Abbreviation TaskInstance := (gmap string value).
Abbreviation TaskInstanceIndex := (jsobj (gmap string value)).

Inductive CacheStatus : Type := CLEAN | DIRTY.

#[global] Instance CacheStatus_eq_dec : EqDecision CacheStatus.
Proof. solve_decision. Defined.

Record FileStateHash : Type := mkFileStateHash {
  status : CacheStatus;
  hash : string
}.

(** [IndexUpdateAction], for a payload [D] of [MODIFY_FILE_TASKS]. *)
Inductive IndexUpdateAction (D : Type) : Type :=
| MODIFY_FILE_TASKS (data : D)
| DELETE_FILE (data : string)
| RENAME_FILE (oldPath newPath : string).
Arguments MODIFY_FILE_TASKS {D} data.
Arguments DELETE_FILE {D} data.
Arguments RENAME_FILE {D} oldPath newPath.

(** A write of the file manager to a document of the host. *)
Inductive FileWrite : Type :=
| WriteIndexFile (file : TAbstractFile)
    (instanceIndex : TaskInstanceIndex) (taskIndex : jsobj (gmap string value))
| WriteStateToFile (file : TAbstractFile) (state : TaskInstanceIndex).

(** *** TaskFileManager: the status bookkeeping *)

(** Modelled from the spec: [TaskFileManager.getFileStateHash], which is
    missing (src/TaskFileManager.ts is not there). The file manager keeps
    one {status, hash} per tracked path (section 3, Cache Status, and
    section 6); the call reads the entry of a path, and answers undefined
    for a path without one. *)
Definition getFileStateHash (states : gmap string FileStateHash)
  (p : string) : option FileStateHash := states !! p.

(** Modelled from the spec: [TaskFileManager.setFileStateHash], which is
    missing; it records the {status, hash} of a path (section 6). *)
Definition setFileStateHash (states : gmap string FileStateHash)
  (p : string) (v : FileStateHash) : gmap string FileStateHash :=
  <[p := v]> states.

(** Modelled from the spec: [TaskFileManager.testAndSetFileStatus], which is
    missing. Section 4.4: a notification for a path whose status is DIRTY is
    swallowed and the status flipped back to CLEAN, otherwise the
    notification goes on. So the call answers whether the status already is
    the one asked for, and leaves the path with that status; a path without
    an entry is not DIRTY and gets none. The spec describes the call with
    CLEAN, which is the one of main.ts; the second copy of the plugin
    class, which calls with DIRTY, takes the method as a parameter. *)
Definition testAndSetFileStatus (states : gmap string FileStateHash)
  (p : string) (s : CacheStatus) : bool * gmap string FileStateHash :=
  match states !! p with
  | Some st =>
      if decide (status st = s) then (true, states)
      else (false, <[p := mkFileStateHash s (hash st)]> states)
  | None => (true, states)
  end.

(** *** The state of the plugin object and of what it owns *)

Section State.
(** The payload of [MODIFY_FILE_TASKS]. *)
Variable D : Type.

Record Plugin : Type := mkPlugin {
  ignoredPaths : list string;               (* settings.ignoredPaths *)
  indexFiles : gset string;                 (* settings.indexFiles *)
  activeFile : option TAbstractFile;        (* _activeFile *)
  instanceIndex : TaskInstanceIndex;        (* taskStore.getState() *)
  taskIndex : jsobj (gmap string value);
  fileStates : gmap string FileStateHash;   (* taskFileManager *)
  (* changeDebouncers: per path, the arguments of the pending call *)
  changeDebouncers : gmap string (option (IndexUpdateAction D));
  (* the actions handed to taskEvents.triggerFileCacheUpdate, in order *)
  published : list (IndexUpdateAction D);
  (* the documents written, in order *)
  writes : list FileWrite
}.

(** How a handler ends: the state it leaves, and the error if it threw. *)
Record outcome : Type := mkOutcome {
  final : Plugin;
  thrown : option error
}.

Definition finished (p : Plugin) : outcome := mkOutcome p None.

Definition with_fileStates (p : Plugin) (fs : gmap string FileStateHash)
  : Plugin :=
  mkPlugin (ignoredPaths p) (indexFiles p) (activeFile p) (instanceIndex p)
    (taskIndex p) fs (changeDebouncers p) (published p) (writes p).

Definition with_activeFile (p : Plugin) (f : TAbstractFile) : Plugin :=
  mkPlugin (ignoredPaths p) (indexFiles p) (Some f) (instanceIndex p)
    (taskIndex p) (fileStates p) (changeDebouncers p) (published p)
    (writes p).

Definition with_changeDebouncers (p : Plugin)
  (d : gmap string (option (IndexUpdateAction D))) : Plugin :=
  mkPlugin (ignoredPaths p) (indexFiles p) (activeFile p) (instanceIndex p)
    (taskIndex p) (fileStates p) d (published p) (writes p).

(** [taskEvents.triggerFileCacheUpdate(action)] *)
Definition triggerFileCacheUpdate (p : Plugin) (a : IndexUpdateAction D)
  : Plugin :=
  mkPlugin (ignoredPaths p) (indexFiles p) (activeFile p) (instanceIndex p)
    (taskIndex p) (fileStates p) (changeDebouncers p) (published p ++ [a])
    (writes p).

Definition write (p : Plugin) (w : FileWrite) : Plugin :=
  mkPlugin (ignoredPaths p) (indexFiles p) (activeFile p) (instanceIndex p)
    (taskIndex p) (fileStates p) (changeDebouncers p) (published p)
    (writes p ++ [w]).

(** [private ignorePath(filePath)] *)
Definition ignorePath (p : Plugin) (filePath : string) : bool :=
  Nat.ltb 0
    (length (List.filter (fun ignored => includes filePath ignored)
               (ignoredPaths p))).

(** [private async handleFileDeleted(abstractFile)] *)
Definition handleFileDeleted (p : Plugin) (abstractFile : TAbstractFile)
  : Plugin :=
  if isTFile abstractFile then
    match getFileStateHash (fileStates p) (path abstractFile) with
    | Some _ => triggerFileCacheUpdate p (DELETE_FILE (path abstractFile))
    | None => p
    end
  else p.

(** [private async handleFileRenamed(abstractFile, oldPath)] *)
Definition handleFileRenamed (p : Plugin) (abstractFile : TAbstractFile)
  (oldPath : string) : Plugin :=
  match getFileStateHash (fileStates p) oldPath with
  | Some _ =>
      triggerFileCacheUpdate p (RENAME_FILE oldPath (path abstractFile))
  | None => p
  end.
End State.

Arguments ignoredPaths {D} _.
Arguments indexFiles {D} _.
Arguments activeFile {D} _.
Arguments instanceIndex {D} _.
Arguments taskIndex {D} _.
Arguments fileStates {D} _.
Arguments changeDebouncers {D} _.
Arguments published {D} _.
Arguments writes {D} _.
Arguments final {D} _.
Arguments thrown {D} _.
Arguments mkOutcome {D} _ _.
Arguments finished {D} _.
Arguments with_fileStates {D} _ _.
Arguments with_activeFile {D} _ _.
Arguments with_changeDebouncers {D} _ _.
Arguments triggerFileCacheUpdate {D} _ _.
Arguments write {D} _ _.
Arguments ignorePath {D} _ _.
Arguments handleFileDeleted {D} _ _.
Arguments handleFileRenamed {D} _ _ _.

End Plugin.

(* ===================================================================== *)
(** ** main.ts *)
(* ===================================================================== *)

Module MainTs.
Import Js JsObj Plugin.

(** What the host answers while a handler runs: the active markdown view,
    if any, and the instance index the file manager reads from a document
    ([getInstanceIndexFromFile], [readMarkdownFile]; the reads are taken to
    succeed). *)
Record Host : Type := mkHost {
  activeView : option MarkdownView;
  getInstanceIndexFromFile : TAbstractFile -> TaskInstanceIndex;
  readMarkdownFile : TAbstractFile -> TaskInstanceIndex
}.

Abbreviation State := (Plugin TaskInstanceIndex).

(** A handler that dispatches nothing: no debouncer is called, nothing is
    published, the task store and the documents are as before. *)
Definition no_dispatch (p : State) (r : outcome TaskInstanceIndex) : Prop :=
  changeDebouncers (final r) = changeDebouncers p /\
  published (final r) = published p /\
  instanceIndex (final r) = instanceIndex p /\
  taskIndex (final r) = taskIndex p /\
  writes (final r) = writes p.

(** The status recorded for a path. *)
Definition fileStatus (p : State) (filePath : string) : option CacheStatus :=
  status <$> getFileStateHash (fileStates p) filePath.

Section Handlers.
(** Imported from "./src/TaskFileManager" and "./src/Task". *)
Variable hashFileTaskState : TaskInstanceIndex -> string.
Variable filterIndexByPath : string -> TaskInstanceIndex -> TaskInstanceIndex.
Variable instanceIndexKey : string -> nat -> string.
Variable taskLocationStr : TaskInstance -> string.

(** The callback registered for 'file-open'. *)
Definition onFileOpen (h : Host) (p : State) (file : option TAbstractFile)
  : State :=
  match file with
  | None => p
  | Some file =>
      if ignorePath p (path file) then p
      else
        let p := with_activeFile p file in
        let storedIndex := filterIndexByPath (path file) (instanceIndex p) in
        let index := readMarkdownFile h file in
        let hash := hashFileTaskState index in
        let storedHash := hashFileTaskState storedIndex in
        if negb (String.eqb storedHash hash) then
          let p :=
            with_fileStates p
              (setFileStateHash (fileStates p) (path file)
                 (mkFileStateHash DIRTY storedHash)) in
          if decide (path file ∈ indexFiles p)
          then write p (WriteIndexFile file (instanceIndex p) (taskIndex p))
          else write p (WriteStateToFile file
                          (filterIndexByPath (path file) storedIndex))
        else
          with_fileStates p
            (setFileStateHash (fileStates p) (path file)
               (mkFileStateHash CLEAN storedHash))
  end.

(** The first test of [handleCacheChanged]: a markdown view is active and
    shows another document. *)
Definition otherViewActive (h : Host) (file : TAbstractFile) : bool :=
  match activeView h with
  | Some v => negb (String.eqb (path (view_file v)) (path file))
  | None => false
  end.

(** [file !== this.activeFile] *)
Definition notActiveFile (p : State) (file : TAbstractFile) : bool :=
  match activeFile p with
  | Some a => negb (same_object file a)
  | None => true
  end.

(** The live index after
    [if (cursorLineKey in fileInstanceIndex
         && fileInstanceIndex[cursorLineKey].uid === 0) delete ...]. *)
Definition dropCursorTask (file : TAbstractFile) (line : nat)
  (fileInstanceIndex : TaskInstanceIndex) : TaskInstanceIndex :=
  let cursorLineKey := instanceIndexKey (path file) line in
  if has fileInstanceIndex cursorLineKey &&
     match get fileInstanceIndex cursorLineKey with
     | Some i => strict_equals (prop i "uid") (Num 0)
     | None => false
     end
  then remove fileInstanceIndex (instanceIndexKey (path file) line)
  else fileInstanceIndex.

(** [existingFileInstanceIndex]: the stored instances of the document,
    keyed by [taskLocationStr]. *)
Definition existingFileInstanceIndex (p : State) (file : TAbstractFile)
  : TaskInstanceIndex :=
  fold_left (fun idx i => set idx (taskLocationStr i) i)
    (List.filter
       (fun i => strict_equals (prop i "filePath") (Str (path file)))
       (values (instanceIndex p)))
    [].

(** A call of [this.changeDebouncers[path]], created on first use. *)
Definition callDebouncer (p : State) (filePath : string)
  (a : IndexUpdateAction TaskInstanceIndex) : State :=
  let ds :=
    match changeDebouncers p !! filePath with
    | Some _ => changeDebouncers p
    | None => <[filePath := None]> (changeDebouncers p)
    end in
  with_changeDebouncers p (<[filePath := Some a]> ds).

(** The timer of the debouncer of a path runs out: the pending call is
    made. *)
Definition debouncerElapsed (p : State) (filePath : string) : State :=
  match changeDebouncers p !! filePath with
  | Some (Some a) =>
      triggerFileCacheUpdate
        (with_changeDebouncers p (<[filePath := None]> (changeDebouncers p)))
        a
  | _ => p
  end.

(** [private async handleCacheChanged(file, data, cache)] *)
Definition handleCacheChanged (h : Host) (p : State) (file : TAbstractFile)
  : outcome TaskInstanceIndex :=
  if otherViewActive h file then finished p
  else if notActiveFile p file || ignorePath p (path file) then finished p
  else
    let '(ok, states) :=
      testAndSetFileStatus (fileStates p) (path file) CLEAN in
    let p := with_fileStates p states in
    if negb ok then finished p
    else
      match activeView h with
      | None => mkOutcome p (Some TypeError)     (* null.editor *)
      | Some view =>
          let line := cursor_line view in
          let fileInstanceIndex :=
            dropCursorTask file line (getInstanceIndexFromFile h file) in
          let existing := existingFileInstanceIndex p file in
          if negb (String.eqb (hashFileTaskState fileInstanceIndex)
                     (hashFileTaskState existing))
          then finished (callDebouncer p (path file)
                           (MODIFY_FILE_TASKS fileInstanceIndex))
          else finished p
      end.
End Handlers.

End MainTs.

(* ===================================================================== *)
(** ** The second copy of the plugin class (unnamed/part_001) *)
(* ===================================================================== *)

Module Part001.
Import Js JsObj Plugin.

Section Handlers.
(** The file task state [getFileTaskState] resolves to. *)
Variable FileTaskState : Type.

(** [TaskFileManager.testAndSetFileStatus], which is not among the sources:
    here the call is made with DIRTY, for which the spec has no words, so
    the method is a parameter, used through its answer and through the
    file states it leaves. *)
Variable testAndSetFileStatus :
  gmap string FileStateHash -> string -> CacheStatus ->
  bool * gmap string FileStateHash.

Record Host : Type := mkHost {
  activeView : option MarkdownView;
  getFileTaskState : TAbstractFile -> option FileTaskState
}.

(** [private async handleCacheChanged(abstractFile)] *)
Definition handleCacheChanged (h : Host) (p : Plugin FileTaskState)
  (abstractFile : TAbstractFile) : Plugin FileTaskState :=
  let '(ok, states) :=
    testAndSetFileStatus (fileStates p) (path abstractFile) DIRTY in
  let p := with_fileStates p states in
  if negb ok then p
  else if
    match activeView h with
    | Some v => negb (String.eqb (path (view_file v)) (path abstractFile))
    | None => false
    end
  then p
  else if isTFile abstractFile then
    match getFileTaskState h abstractFile with
    | Some state => triggerFileCacheUpdate p (MODIFY_FILE_TASKS state)
    | None => p
    end
  else p.
End Handlers.

Arguments activeView {FileTaskState} _.
Arguments getFileTaskState {FileTaskState} _ _.
Arguments mkHost {FileTaskState} _ _.
Arguments handleCacheChanged {FileTaskState} _ _ _ _.

End Part001.

(* ===================================================================== *)
(** ** Auxiliary definitions for the proofs *)
(* ===================================================================== *)

Module RegexAux.
Import Js Regex.

(** The states a starred character set reaches from the input [s], deepest
    first: the closed form of [run] on [Star (Chr cs)]. *)
Fixpoint chr_star_states (cs : cset) (p : option ascii) (s : list ascii)
  (cp : gmap string string) : list mstate :=
  match s with
  | c :: s' =>
      if cset_mem cs c
      then chr_star_states cs (Some c) s' cp ++ [MState p s cp]
      else [MState p s cp]
  | [] => [MState p [] cp]
  end.

(** The longest prefix of [s] within [cs], and what follows it. *)
Fixpoint span (cs : cset) (s : list ascii) : list ascii * list ascii :=
  match s with
  | c :: s' =>
      if cset_mem cs c
      then let '(w, t) := span cs s' in (c :: w, t)
      else ([], s)
  | [] => ([], [])
  end.

Definition no_line_terminator (s : list ascii) : bool :=
  forallb (fun c => negb (is_line_terminator c)) s.

(** The end of the static pattern: an optional caret, then the rest of the
    line. *)
Definition line_tail : regex := Seq (Opt (lit "^")) (Seq (Star (Chr Dot)) Eol).

(** The pattern inside the group taskLine. *)
Definition body : regex := Seq (Chr NonSpace) (Star (Chr (NoneOf "^"))).

(** The status token between the brackets: nothing, one white space
    character, or a lower-case x. *)
Definition status_token (tok : list ascii) : Prop :=
  tok = [] \/ (exists t, tok = [t] /\ is_space t = true) \/ tok = ["x"%char].

(** The two fields [parseLine] computes, before they are spread over
    [emptyTask]. *)
Definition parseLine_fields (line : string)
  : completion (option (bool * string)) :=
  match string_match line TaskParserTs.TaskParser.strictPattern with
  | MatchNull => Normal None
  | m =>
      match groups_of m with
      | None => Throw TypeError
      | Some g =>
          match g !! "taskLine" with
          | None => Throw TypeError
          | Some taskLine =>
              Normal (Some (bool_decide (g !! "complete" = Some "x"),
                            trim taskLine))
          end
      end
  end.

(** The display text in the words of the spec (section 4.1): the text after
    the status token, up to but excluding an optional trailing token made
    of a caret and an identifier, trimmed. It is what the claim about the
    display text is compared with, not a translation of the source. *)
Definition strip_trailing_identifier (l : list ascii) : list ascii :=
  match span AlphaNum (rev l) with
  | (_ :: _, "^"%char :: r) => rev r
  | _ => l
  end.

Definition spec_display_text (after : string) : string :=
  str (trim_chars (strip_trailing_identifier (chars after))).

(** [{...emptyTask, complete, name}] *)
Definition task_of (emptyTask : gmap string value) (f : bool * string)
  : gmap string value :=
  <["name" := Str (snd f)]> (<["complete" := Bool (fst f)]> emptyTask).

End RegexAux.

(* ===================================================================== *)
(** ** Example inputs *)
(* ===================================================================== *)

Module Examples.
Import Js JsObj Plugin MainTs.

(** A two-line document: "a", a line feed, "b". *)
Definition two_lines : string :=
  String "a" (String "010" (String "b" EmptyString)).

Definition fileD : TAbstractFile := mkFile true "D.md" 1.
Definition fileE : TAbstractFile := mkFile true "E.md" 2.

(** Stand-ins for the functions main.ts imports: a fingerprint that lists
    the keys of an index, the entries of a path, and keys path:line. *)
Definition hashKeys (idx : TaskInstanceIndex) : string :=
  String.concat "," (map fst idx).

Definition entriesOf (filePath : string) (idx : TaskInstanceIndex)
  : TaskInstanceIndex :=
  List.filter
    (fun kv => strict_equals (prop (snd kv) "filePath") (Str filePath)) idx.

Definition keyOf (filePath : string) (line : nat) : string :=
  filePath +:+ ":" +:+ pretty line.

Definition locationOf (i : TaskInstance) : string :=
  match prop i "filePath", prop i "line" with
  | Str f, Num l => keyOf f (Z.to_nat l)
  | _, _ => ""
  end.

Definition instance (uid : Z) (filePath : string) (line : Z) : TaskInstance :=
  {[ "uid" := Num uid; "filePath" := Str filePath; "line" := Num line ]}.

(** The document D.md holds one task with an identity on line 0 and one
    without on line 3; E.md holds none. *)
Definition storedD : TaskInstanceIndex := [("D.md:0", instance 1 "D.md" 0)].
Definition liveD : TaskInstanceIndex :=
  [("D.md:0", instance 1 "D.md" 0); ("D.md:3", instance 0 "D.md" 3)].

Definition liveOf (f : TAbstractFile) : TaskInstanceIndex :=
  if String.eqb (path f) "D.md" then liveD else [].

Definition host (view : option MarkdownView) : Host :=
  mkHost view liveOf liveOf.

(** The plugin before any document is opened, with an empty index. *)
Definition fresh : State := mkPlugin _ [] ∅ None [] [] ∅ ∅ [] [].

(** D.md is the active file, its stored task is in the index, its status is
    as given. *)
Definition activeD (s : CacheStatus) : State :=
  mkPlugin _ [] ∅ (Some fileD) storedD []
    {[ "D.md" := mkFileStateHash s "D.md:0" ]} ∅ [] [].

(** The second copy of the plugin class, D.md DIRTY, no markdown view. *)
Definition legacyHost : Part001.Host unit :=
  Part001.mkHost None (fun _ => Some tt).

Definition legacyD : Plugin unit :=
  mkPlugin _ [] ∅ None [] [] {[ "D.md" := mkFileStateHash DIRTY "" ]} ∅ [] [].

End Examples.

(* ===================================================================== *)
(** ** src/TaskParser.ts: the parsers of whole documents *)
(* ===================================================================== *)

Module TaskParserRest.
Import Js Regex TaskParserTs.

Definition is_lf (c : ascii) : bool := Nat.eqb (code c) 10.
Definition is_cr (c : ascii) : bool := Nat.eqb (code c) 13.

(** [contents.split(/\r?\n/g)]: a line ends at a line feed, and a carriage
    return right before the line feed belongs to the separator; any other
    carriage return is a character of the line. *)
Fixpoint split_lines (piece : list ascii) (s : list ascii) : list string :=
  match s with
  | [] => [str (rev piece)]
  | c :: s' =>
      if is_lf c then str (rev piece) :: split_lines [] s'
      else
        match s' with
        | d :: s'' =>
            if is_cr c && is_lf d
            then str (rev piece) :: split_lines [] s''
            else split_lines (c :: piece) s'
        | [] => split_lines (c :: piece) s'
        end
  end.

(** A task of [parseLinesToRecord]: the properties [parseLine] gave it,
    but for [locations], which is assigned, an array of {filePath, line}. *)
Record LocatedTask : Type := mkLocatedTask {
  properties : gmap string value;
  locations : list (string * nat)
}.

Section WithEmptyTask.
Variable emptyTask : gmap string value.

(** [lines.map((line, index) => [index, TaskParser.parseLine(line)])],
    from the line number [index] on. *)
Fixpoint map_lines (index : nat) (lines : list string)
  : completion (list (nat * option (gmap string value))) :=
  match lines with
  | [] => Normal []
  | line :: more =>
      match TaskParser.parseLine emptyTask line with
      | Throw e => Throw e
      | Normal t =>
          match map_lines (S index) more with
          | Throw e => Throw e
          | Normal r => Normal ((index, t) :: r)
          end
      end
  end.

(** [tl => tl[1] !== null] *)
Definition not_null (tl : nat * option (gmap string value)) : bool :=
  match snd tl with Some _ => true | None => false end.

(** [static parseLines(contents: string): Array<FileTaskLine>] *)
Definition parseLines (contents : string)
  : completion (list (nat * option (gmap string value))) :=
  let lines := split_lines [] (chars contents) in
  match map_lines 0 lines with
  | Throw e => Throw e
  | Normal l => Normal (List.filter not_null l)
  end.

(** The reduction of [parseLinesToRecord], from the line number [lineNum]
    on, with the record [rec] threaded. *)
Fixpoint reduce_lines (filePath : string) (lineNum : nat)
  (lines : list string) (rec : gmap nat LocatedTask)
  : completion (gmap nat LocatedTask) :=
  match lines with
  | [] => Normal rec
  | line :: more =>
      match TaskParser.parseLine emptyTask line with
      | Throw e => Throw e
      | Normal None => reduce_lines filePath (S lineNum) more rec
      | Normal (Some task) =>
          reduce_lines filePath (S lineNum) more
            (<[lineNum :=
                 mkLocatedTask (delete "locations" task)
                   [(filePath, lineNum)]]> rec)
      end
  end.

(** [static parseLinesToRecord(filePath, contents): Record<number, ITask>] *)
Definition parseLinesToRecord (filePath : string) (contents : string)
  : completion (gmap nat LocatedTask) :=
  let lines := split_lines [] (chars contents) in
  reduce_lines filePath 0 lines ∅.
End WithEmptyTask.

End TaskParserRest.

(* ===================================================================== *)
(** ** main.ts and its second copy: the scan of the vault *)
(* ===================================================================== *)

Module ProcessVault.
Import Js JsObj Plugin.

(** The plugin with what [processVault] reads and writes besides: the
    setting [taskDirectoryName], the flag [vaultLoaded], and the arguments
    of the calls of [taskStore.initialize], in order. *)
Record Vault (D : Type) : Type := mkVault {
  plugin : Plugin D;
  taskDirectoryName : string;
  vaultLoaded : bool;
  initialized : list (list TaskInstance)
}.
Arguments mkVault {D} _ _ _ _.
Arguments plugin {D} _.
Arguments taskDirectoryName {D} _.
Arguments vaultLoaded {D} _.
Arguments initialized {D} _.

(** What the host answers during the scan: the markdown files of the vault,
    the instances [processTasksDirectory] resolves to, and the instance
    index read from a file (the reads are taken to succeed). *)
Record VaultHost : Type := mkVaultHost {
  getMarkdownFiles : list TAbstractFile;
  processTasksDirectory : list TaskInstance;
  readMarkdownFile : TAbstractFile -> TaskInstanceIndex
}.

(** The loop over [getMarkdownFiles()] in main.ts. *)
Definition scanMarkdownFiles {D} (h : VaultHost) (v : Vault D)
  : list TaskInstance :=
  fold_left
    (fun fileTaskInstances file =>
       if includes (path file) (taskDirectoryName v)
          || ignorePath (plugin v) (path file)
       then fileTaskInstances
       else fileTaskInstances ++ values (readMarkdownFile h file))
    (getMarkdownFiles h) [].

(** [private async processVault()] of main.ts *)
Definition processVault {D} (h : VaultHost) (v : Vault D) : Vault D :=
  if vaultLoaded v then v
  else
    let taskInstances := processTasksDirectory h in
    let fileTaskInstances := scanMarkdownFiles h v in
    mkVault (plugin v) (taskDirectoryName v) true
      (initialized v ++ [taskInstances ++ fileTaskInstances]).

(** The loop in the second copy of the plugin class: no test of
    [ignorePath]. *)
Definition scanMarkdownFiles001 {D} (h : VaultHost) (v : Vault D)
  : list TaskInstance :=
  fold_left
    (fun fileTaskInstances file =>
       if includes (path file) (taskDirectoryName v)
       then fileTaskInstances
       else fileTaskInstances ++ values (readMarkdownFile h file))
    (getMarkdownFiles h) [].

(** [private async processVault()] of the second copy *)
Definition processVault001 {D} (h : VaultHost) (v : Vault D) : Vault D :=
  if vaultLoaded v then v
  else
    let taskInstances := processTasksDirectory h in
    let fileTaskInstances := scanMarkdownFiles001 h v in
    mkVault (plugin v) (taskDirectoryName v) true
      (initialized v ++ [taskInstances ++ fileTaskInstances]).

End ProcessVault.

(* ===================================================================== *)
(** ** main.ts: the handlers as steps *)
(* ===================================================================== *)

Module Pipeline.
Import Js JsObj Plugin MainTs.

(** What the host delivers to the plugin: the events the handlers of
    [registerEvents] are registered for, and the timer of a debouncer
    running out. Each run of a handler is taken as one step. *)
Inductive event : Type :=
| FileOpen (h : Host) (file : option TAbstractFile)
| CacheChanged (h : Host) (file : TAbstractFile)
| FileDeleted (abstractFile : TAbstractFile)
| FileRenamed (abstractFile : TAbstractFile) (oldPath : string)
| TimerElapsed (filePath : string).

Section Steps.
Variable hashFileTaskState : TaskInstanceIndex -> string.
Variable filterIndexByPath : string -> TaskInstanceIndex -> TaskInstanceIndex.
Variable instanceIndexKey : string -> nat -> string.
Variable taskLocationStr : TaskInstance -> string.

Definition step (p : State) (e : event) : State :=
  match e with
  | FileOpen h file => onFileOpen hashFileTaskState filterIndexByPath h p file
  | CacheChanged h file =>
      final (handleCacheChanged hashFileTaskState instanceIndexKey
               taskLocationStr h p file)
  | FileDeleted f => handleFileDeleted p f
  | FileRenamed f oldPath => handleFileRenamed p f oldPath
  | TimerElapsed filePath => debouncerElapsed p filePath
  end.

Definition run_events (p : State) (es : list event) : State :=
  fold_left step es p.
End Steps.

(** The active file and every tracked path are outside the ignored paths,
    and the active file is tracked. *)
Definition well_tracked (p : State) : Prop :=
  (forall f, activeFile p = Some f ->
     is_Some (fileStates p !! path f)) /\
  (forall filePath, is_Some (fileStates p !! filePath) ->
     ignorePath p filePath = false).

End Pipeline.

(* ===================================================================== *)
(** ** The shape of a task line *)
(* ===================================================================== *)

Module TaskLine.
Import Js Regex RegexAux.

(** A line read as: some text, a marker, a space, the status token in
    brackets, white space, the body from its first character [c] up to the
    first caret after it, and what is left of the line. *)
Definition task_shape (l pre : list ascii) (m : ascii) (tok ws : list ascii)
  (c : ascii) (w rest0 : list ascii) : Prop :=
  l = pre ++ m :: " "%char :: "["%char :: tok ++ "]"%char :: ws
          ++ c :: w ++ rest0 /\
  (m = "-"%char \/ m = "*"%char) /\
  status_token tok /\
  ws <> [] /\ forallb is_space ws = true /\
  is_space c = false /\
  forallb (fun a => negb (Ascii.eqb "^" a)) w = true /\
  (rest0 = [] \/ exists r, rest0 = "^"%char :: r) /\
  no_line_terminator rest0 = true.

Definition is_task_line (l : list ascii) : Prop :=
  exists pre m tok ws c w rest0, task_shape l pre m tok ws c w rest0.

Definition is_marker (a : ascii) : bool :=
  Ascii.eqb a "-" || Ascii.eqb a "*".

(** A task line starts at the first character of [l]. *)
Definition task_starts (l : list ascii) : Prop :=
  exists m tok ws c w rest0, task_shape l [] m tok ws c w rest0.

(** No task line starts at a position of [l] before position [n]: a task
    line that is read at position [n] is the leftmost of the line, the one
    [String.prototype.match] finds. *)
Definition no_task_before (l : list ascii) (n : nat) : Prop :=
  forall i, i < n -> ~ task_starts (drop i l).

End TaskLine.

(* ===================================================================== *)
(** ** Lines joined again *)
(* ===================================================================== *)

Module Lines.
Import Js TaskParserRest.

Definition LF : ascii := ascii_of_nat 10.

(** [lines.join("\n")] *)
Fixpoint join_lf (lines : list string) : list ascii :=
  match lines with
  | [] => []
  | [line] => chars line
  | line :: more => chars line ++ LF :: join_lf more
  end.

(** The text with every carriage return that stands right before a line
    feed left out. *)
Fixpoint crlf_to_lf (s : list ascii) : list ascii :=
  match s with
  | [] => []
  | c :: s' =>
      if is_lf c then c :: crlf_to_lf s'
      else
        match s' with
        | d :: s'' =>
            if is_cr c && is_lf d then d :: crlf_to_lf s''
            else c :: crlf_to_lf s'
        | [] => [c]
        end
  end.

Definition count_lf (s : list ascii) : nat := length (List.filter is_lf s).

End Lines.

(* ===================================================================== *)
(** ** The cached list items [parseFileContents] passes over *)
(* ===================================================================== *)

Module CacheTasks.
Import Js Regex TaskParserTs.

Definition count_terminators (s : list ascii) : nat :=
  length (List.filter is_line_terminator s).

(** The cached item names an element of [lines] that the module pattern
    does not match: the loop goes on to the next item. *)
Definition passed_over (lines : list string) (li : ListItemCache) : Prop :=
  exists line,
    lines !! position_start_line li = Some line /\
    string_match line strictPattern = MatchNull.

(** [fileCache.listItems.filter(li => li.task)] *)
Definition cacheTasks (items : list ListItemCache) : list ListItemCache :=
  List.filter (fun li => truthy_string (task li)) items.

End CacheTasks.

(* ===================================================================== *)
(** ** The shape of a task line of the module pattern *)
(* ===================================================================== *)

Module ModuleLine.
Import Js Regex RegexAux.

(** A line read as: white space, a marker, a space, the status token in
    brackets, white space, the body from its first character [c] on, and
    an optional identifier part made of a space, a caret and letters or
    digits. *)
Definition module_task_shape (l ws0 : list ascii) (m : ascii)
  (tok ws : list ascii) (c : ascii) (w idp : list ascii) : Prop :=
  l = ws0 ++ m :: " "%char :: "["%char :: tok ++ "]"%char :: ws
          ++ c :: w ++ idp /\
  forallb is_space ws0 = true /\
  (m = "-"%char \/ m = "*"%char) /\
  status_token tok /\
  ws <> [] /\ forallb is_space ws = true /\
  is_space c = false /\
  forallb (fun a => negb (Ascii.eqb "^" a)) w = true /\
  (idp = [] \/
   exists id, id <> [] /\ forallb (cset_mem AlphaNum) id = true /\
              idp = " "%char :: "^"%char :: id).

Definition is_module_task_line (l : list ascii) : Prop :=
  exists ws0 m tok ws c w idp, module_task_shape l ws0 m tok ws c w idp.

(** [r] can read [s] down to [t], whatever comes before [s] and whatever
    has been captured. *)
Definition reach (ml : bool) (r : regex) (s t : list ascii) : Prop :=
  forall p cp, exists p' cp', In (MState p' t cp') (run ml r (MState p s cp)).

End ModuleLine.

(* ===================================================================== *)
(** ** Counting the events of a trace *)
(* ===================================================================== *)

Module Trace.
Import Js JsObj Plugin MainTs Pipeline.

(** The events whose handler calls [triggerFileCacheUpdate] itself, and the
    timers, which make the pending call of a debouncer. *)
Definition may_publish (e : event) : bool :=
  match e with
  | FileDeleted _ | FileRenamed _ _ | TimerElapsed _ => true
  | FileOpen _ _ | CacheChanged _ _ => false
  end.

Definition may_write (e : event) : bool :=
  match e with
  | FileOpen _ _ => true
  | _ => false
  end.

Section Editing.
Variable hashFileTaskState : TaskInstanceIndex -> string.
Variable instanceIndexKey : string -> nat -> string.
Variable taskLocationStr : TaskInstance -> string.

(** The live index [handleCacheChanged] hashes and dispatches. *)
Definition liveIndex (h : Host) (file : TAbstractFile)
  : option TaskInstanceIndex :=
  match activeView h with
  | Some view =>
      Some (dropCursorTask instanceIndexKey file (cursor_line view)
              (getInstanceIndexFromFile h file))
  | None => None
  end.

(** The host shows [file] in the active markdown view, and its live index
    hashes unlike the stored one. *)
Definition edited (h : Host) (p : State) (file : TAbstractFile) : Prop :=
  otherViewActive h file = false /\
  exists live,
    liveIndex h file = Some live /\
    hashFileTaskState live <>
    hashFileTaskState (existingFileInstanceIndex taskLocationStr p file).

(** The plugin takes notifications for [file]: it is the active file, it
    is not ignored, and its status is not DIRTY. *)
Definition listening (p : State) (file : TAbstractFile) : Prop :=
  notActiveFile p file = false /\
  ignorePath p (path file) = false /\
  (forall st, fileStates p !! path file = Some st -> status st = CLEAN).
End Editing.

End Trace.

(* ===================================================================== *)
(** ** Example vault *)
(* ===================================================================== *)

Module VaultExamples.
Import Js JsObj Plugin ProcessVault Examples.

Definition taskFile : TAbstractFile := mkFile true "tasks/1.md" 3.
Definition draftFile : TAbstractFile := mkFile true "drafts/x.md" 4.

(** A vault with a task file, two documents and a draft; the drafts are
    ignored. *)
Definition exampleVault : Vault TaskInstanceIndex :=
  mkVault (mkPlugin _ ["drafts"] ∅ None [] [] ∅ ∅ [] []) "tasks" false [].

Definition exampleVaultHost : VaultHost :=
  mkVaultHost [taskFile; fileD; draftFile; fileE]
    [instance 7 "tasks/1.md" 0] liveOf.

End VaultExamples.

(* ===================================================================== *)
(** ** The stored belief of the index for a path *)
(* ===================================================================== *)

Module Belief.
Import Js JsObj Plugin MainTs Examples.






End Belief.

(* ===================================================================== *)
(** ** Facts about the matcher *)
(* ===================================================================== *)

Section ListFacts.
Context {A B : Type}.

Lemma head_flat_map_In (f : A -> list B) (l : list A) (y : B) :
  head (flat_map f l) = Some y -> exists x, In x l /\ head (f x) = Some y.
Proof.
  induction l as [|x l IH]; simpl; [discriminate|].
  destruct (f x) as [|b bs] eqn:E; simpl.
  - intros H. destruct (IH H) as (z & Hz & Hy). eauto.
  - intros [= <-]. exists x. rewrite E. auto.
Qed.

Lemma flat_map_all_nil (f : A -> list B) (l : list A) :
  (forall z, In z l -> f z = []) -> flat_map f l = [].
Proof.
  induction l as [|x l IH]; simpl; intros H; [reflexivity|].
  rewrite (H x) by auto. simpl. apply IH. intros; apply H; auto.
Qed.

(** When the first candidate failing makes every later one fail, the
    result of backtracking is the result of the first candidate. *)
Lemma head_flat_map_first (f : A -> list B) (x : A) (l : list A) :
  (forall z, In z l -> f x = [] -> f z = []) ->
  head (flat_map f (x :: l)) = head (f x).
Proof.
  intros H. simpl. destruct (f x) as [|b bs] eqn:E; simpl; [|reflexivity].
  rewrite flat_map_all_nil; [reflexivity|]. intros z Hz. apply H; auto.
Qed.
End ListFacts.

Module RegexFacts.
Import Js Regex RegexAux.

Section Run.
Variable ml : bool.

Lemma run_Seq a b st :
  run ml (Seq a b) st = flat_map (run ml b) (run ml a st).
Proof. reflexivity. Qed.

Lemma in_run_Seq a b st st' :
  In st' (run ml (Seq a b) st) <->
  exists st1, In st1 (run ml a st) /\ In st' (run ml b st1).
Proof. rewrite run_Seq. apply in_flat_map. Qed.

Lemma head_run_Seq a b st st' :
  head (run ml (Seq a b) st) = Some st' ->
  exists st1, In st1 (run ml a st) /\ head (run ml b st1) = Some st'.
Proof. rewrite run_Seq. apply head_flat_map_In. Qed.

Lemma in_run_Chr cs st st' :
  In st' (run ml (Chr cs) st) <->
  exists c s, rest st = c :: s /\ cset_mem cs c = true /\
              st' = MState (Some c) s (caps st).
Proof.
  simpl. destruct (rest st) as [|c s] eqn:E.
  - split; [intros []|]. intros (c & s & H & _); discriminate.
  - destruct (cset_mem cs c) eqn:Hc; simpl.
    + split.
      * intros [<-|[]]. exists c, s. auto.
      * intros (c' & s' & [= <- <-] & _ & ->). now left.
    + split; [intros []|]. intros (c' & s' & [= <- _] & Hc' & _).
      congruence.
Qed.

Lemma in_run_lit c st st' :
  In st' (run ml (lit c) st) <->
  exists s, rest st = c :: s /\ st' = MState (Some c) s (caps st).
Proof.
  unfold lit. rewrite in_run_Chr. simpl. split.
  - intros (c' & s & H1 & H2 & H3). apply Ascii.eqb_eq in H2. subst c'.
    eauto.
  - intros (s & H1 & H2). exists c, s. rewrite Ascii.eqb_refl. auto.
Qed.

Lemma in_run_Alt a b st st' :
  In st' (run ml (Alt a b) st) <->
  In st' (run ml a st) \/ In st' (run ml b st).
Proof. simpl. apply in_app_iff. Qed.

Lemma in_run_Opt a st st' :
  In st' (run ml (Opt a) st) ->
  In st' (run ml a st) \/ st' = st.
Proof.
  simpl. rewrite in_app_iff, filter_In. simpl. intuition.
Qed.

Lemma in_run_Group name a st st' :
  In st' (run ml (Group name a) st) <->
  exists st1, In st1 (run ml a st) /\
    st' = MState (prev st1) (rest st1)
            (<[name := str (consumed st st1)]> (caps st1)).
Proof.
  simpl. rewrite in_map_iff. split; intros (x & H1 & H2); eauto.
Qed.

(** [run] on a starred character set is [chr_star_states]. *)
Lemma star_Chr cs n p s cp :
  length s <= n ->
  star (run ml (Chr cs)) n (MState p s cp) = chr_star_states cs p s cp.
Proof.
  revert p s. induction n as [|n IH]; intros p s Hn.
  - destruct s; [reflexivity|simpl in Hn; lia].
  - destruct s as [|c s]; simpl; [reflexivity|].
    destruct (cset_mem cs c); simpl; [|reflexivity].
    rewrite app_nil_r.
    destruct (Nat.ltb_spec (length s) (S (length s))); [|lia].
    rewrite IH by (simpl in Hn; lia). reflexivity.
Qed.

Lemma run_Star_Chr cs st :
  run ml (Star (Chr cs)) st =
  chr_star_states cs (prev st) (rest st) (caps st).
Proof. destruct st as [p s cp]. simpl. now apply star_Chr. Qed.

Lemma in_chr_star_states cs p s cp x :
  In x (chr_star_states cs p s cp) ->
  exists w, s = w ++ rest x /\ forallb (cset_mem cs) w = true /\
            caps x = cp.
Proof.
  revert p. induction s as [|c s IH]; intros p; simpl.
  - intros [<-|[]]. exists []. auto.
  - destruct (cset_mem cs c) eqn:Hc.
    + rewrite in_app_iff. intros [H|[<-|[]]].
      * destruct (IH _ H) as (w & -> & Hw & Hcp).
        exists (c :: w). simpl. rewrite Hc, Hw. auto.
      * exists []. auto.
    + intros [<-|[]]. exists []. auto.
Qed.

Lemma span_app cs s : s = fst (span cs s) ++ snd (span cs s).
Proof.
  induction s as [|c s IH]; simpl; [reflexivity|].
  destruct (cset_mem cs c); [|reflexivity].
  destruct (span cs s) as [w t]. simpl in *. now rewrite <- IH.
Qed.

Lemma span_prefix cs s : forallb (cset_mem cs) (fst (span cs s)) = true.
Proof.
  induction s as [|c s IH]; simpl; [reflexivity|].
  destruct (cset_mem cs c) eqn:Hc; [|reflexivity].
  destruct (span cs s) as [w t]. simpl in *. now rewrite Hc.
Qed.

Lemma span_stop cs s :
  snd (span cs s) = [] \/
  exists c t, snd (span cs s) = c :: t /\ cset_mem cs c = false.
Proof.
  induction s as [|c s IH]; simpl; [now left|].
  destruct (cset_mem cs c) eqn:Hc.
  - destruct (span cs s) as [w t]. exact IH.
  - right. eauto.
Qed.

(** The deepest state comes first: it has consumed the longest prefix. *)
Lemma chr_star_states_first cs p s cp :
  exists first more,
    chr_star_states cs p s cp = first :: more /\
    rest first = snd (span cs s) /\ caps first = cp /\
    forall z, In z more -> exists v, rest z = v ++ rest first.
Proof.
  revert p. induction s as [|c s IH]; intros p; simpl.
  - exists (MState p [] cp), []. simpl. intuition.
  - destruct (cset_mem cs c) eqn:Hc.
    + destruct (IH (Some c)) as (f & more & E & Hr & Hcp & Hmore).
      exists f, (more ++ [MState p (c :: s) cp]). rewrite E.
      pose proof (span_app cs s) as Hs.
      destruct (span cs s) as [w t]. simpl in *.
      repeat split; auto.
      intros z. rewrite in_app_iff. intros [Hz|[<-|[]]]; [auto|].
      simpl. exists (c :: w). rewrite Hr. simpl. now f_equal.
    + exists (MState p (c :: s) cp), []. simpl. intuition.
Qed.
End Run.

(** *** The end of the static pattern: an optional caret, then the rest of
    the line *)

Lemma no_line_terminator_app a b :
  no_line_terminator (a ++ b) =
  no_line_terminator a && no_line_terminator b.
Proof. apply forallb_app. Qed.

Lemma in_run_Eol st st' :
  In st' (run false Eol st) <-> st' = st /\ rest st = [].
Proof.
  simpl. unfold at_line_end. destruct (rest st); simpl; intuition congruence.
Qed.

Lemma in_run_dots_eol st st' :
  In st' (run false (Seq (Star (Chr Dot)) Eol) st) ->
  caps st' = caps st /\ no_line_terminator (rest st) = true.
Proof.
  rewrite in_run_Seq. intros (z & Hz & H).
  rewrite run_Star_Chr in Hz.
  apply in_chr_star_states in Hz as (w & Hw & Hall & Hcp).
  apply in_run_Eol in H as [-> Hnil].
  split; [assumption|]. rewrite Hw, Hnil, app_nil_r. exact Hall.
Qed.

Lemma run_dots_eol_nonempty st :
  no_line_terminator (rest st) = true ->
  run false (Seq (Star (Chr Dot)) Eol) st <> [].
Proof.
  intros Hs. rewrite run_Seq, run_Star_Chr.
  destruct (chr_star_states_first Dot (prev st) (rest st) (caps st))
    as (f & more & -> & Hr & _ & _).
  assert (Hf : rest f = []).
  { destruct (span_stop Dot (rest st)) as [E|(c & t & E & Hc)];
      [congruence|].
    pose proof (span_app Dot (rest st)) as Happ. rewrite E in Happ.
    rewrite Happ in Hs. unfold no_line_terminator in Hs.
    rewrite forallb_app in Hs. apply andb_true_iff in Hs as [_ Hs].
    simpl in Hs, Hc. rewrite Hc in Hs. discriminate. }
  simpl. unfold at_line_end. rewrite Hf. discriminate.
Qed.

Lemma in_run_line_tail st st' :
  In st' (run false line_tail st) ->
  caps st' = caps st /\ no_line_terminator (rest st) = true.
Proof.
  unfold line_tail. rewrite in_run_Seq. intros (z & Hz & H).
  apply in_run_dots_eol in H as [Hcp Hnl].
  apply in_run_Opt in Hz as [Hz| ->]; [|auto].
  apply in_run_lit in Hz as (s & Hr & ->). simpl in *.
  split; [assumption|]. rewrite Hr. exact Hnl.
Qed.

Lemma run_line_tail_nonempty st :
  no_line_terminator (rest st) = true -> run false line_tail st <> [].
Proof.
  intros Hs. unfold line_tail. rewrite run_Seq.
  change (run false (Opt (lit "^")) st)
    with (List.filter
            (fun st' => Nat.ltb (length (rest st')) (length (rest st)))
            (run false (lit "^") st) ++ [st]).
  rewrite flat_map_app. simpl. rewrite app_nil_r.
  intros H. apply app_eq_nil in H as [_ H].
  now apply (run_dots_eol_nonempty st).
Qed.

Lemma run_body st :
  run false body st =
  match rest st with
  | c :: s =>
      if is_space c then []
      else chr_star_states (NoneOf "^") (Some c) s (caps st)
  | [] => []
  end.
Proof.
  unfold body. rewrite run_Seq.
  destruct st as [p [|c s] cp]; [reflexivity|].
  cbn [run rest caps cset_mem]. destruct (is_space c); [reflexivity|].
  cbn [negb flat_map]. rewrite app_nil_r.
  exact (run_Star_Chr false (NoneOf "^") (MState (Some c) s cp)).
Qed.

Lemma consumed_span cs st f c s :
  rest st = c :: s -> rest f = snd (span cs s) ->
  consumed st f = c :: fst (span cs s).
Proof.
  intros H1 H2. unfold consumed. rewrite H1, H2.
  pose proof (span_app cs s) as Happ.
  destruct (span cs s) as [w t]. simpl in *. subst s.
  change (c :: w ++ t) with ((c :: w) ++ t).
  apply take_app_length'. rewrite length_app. simpl. lia.
Qed.

(** The captured body is the longest one: a character that is not white
    space and everything up to the next caret or the end of the input. *)
Lemma head_run_body_tail name st st' :
  head (run false (Seq (Group name body) line_tail) st) = Some st' ->
  exists c s,
    rest st = c :: s /\ is_space c = false /\
    caps st' = <[name := str (c :: fst (span (NoneOf "^") s))]> (caps st) /\
    no_line_terminator (snd (span (NoneOf "^") s)) = true.
Proof.
  rewrite run_Seq.
  change (run false (Group name body) st)
    with (map (fun st1 =>
                 MState (prev st1) (rest st1)
                   (<[name := str (consumed st st1)]> (caps st1)))
              (run false body st)).
  rewrite run_body.
  destruct (rest st) as [|c s] eqn:Hrest; [discriminate|].
  destruct (is_space c) eqn:Hc; [discriminate|].
  destruct (chr_star_states_first (NoneOf "^") (Some c) s (caps st))
    as (f & more & -> & Hr & Hcp & Hmore).
  rewrite map_cons, head_flat_map_first.
  - intros H. apply head_Some_elem_of, list_elem_of_In in H.
    apply in_run_line_tail in H as [Hcaps Hnl]. simpl in Hcaps, Hnl.
    exists c, s. split; [reflexivity|]. split; [assumption|].
    split; [|now rewrite <- Hr].
    rewrite Hcaps, Hcp. f_equal. f_equal.
    now apply consumed_span.
  - intros z Hz Hnil. apply in_map_iff in Hz as (z0 & <- & Hz0).
    destruct (Hmore z0 Hz0) as (v & Hv).
    match goal with
    | |- ?l = [] => destruct l as [|y ys] eqn:E; [reflexivity|]
    end.
    exfalso. assert (Hin : In y (y :: ys)) by now left.
    rewrite <- E in Hin. apply in_run_line_tail in Hin as [_ Hnl].
    simpl in Hnl. rewrite Hv, no_line_terminator_app in Hnl.
    apply andb_true_iff in Hnl as [_ Hnl].
    revert Hnil. now apply run_line_tail_nonempty.
Qed.

(** *** The static pattern of [TaskParser] *)

Lemma consumed_one st c s p cp :
  rest st = c :: s -> consumed st (MState p s cp) = [c].
Proof.
  intros H. unfold consumed. rewrite H. simpl rest.
  replace (length (c :: s) - length s) with 1 by (simpl; lia).
  reflexivity.
Qed.

(** What a match of the static pattern at the start of [s] looks like. *)
Lemma strict_exec_shape p s st' :
  exec_here TaskParserTs.TaskParser.strictPattern p s = Some st' ->
  exists m tok ws c b,
    s = m :: " "%char :: "["%char :: tok ++ "]"%char :: ws ++ c :: b /\
    (m = "-"%char \/ m = "*"%char) /\
    status_token tok /\
    ws <> [] /\ forallb is_space ws = true /\
    is_space c = false /\
    caps st' !! "taskLine" = Some (str (c :: fst (span (NoneOf "^") b))) /\
    caps st' !! "complete" =
      match tok with [] => None | _ => Some (str tok) end /\
    no_line_terminator (snd (span (NoneOf "^") b)) = true.
Proof.
  unfold exec_here.
  cbn [pattern multiline TaskParserTs.TaskParser.strictPattern].
  intros H.
  apply head_run_Seq in H as (x1 & H1 & H).
  apply head_run_Seq in H as (x2 & H2 & H).
  apply head_run_Seq in H as (x3 & H3 & H).
  apply head_run_Seq in H as (x4 & H4 & H).
  apply head_run_Seq in H as (x5 & H5 & H).
  apply head_run_Seq in H as (x6 & H6 & H).
  apply (head_run_body_tail "taskLine") in H
    as (c & b & Hrest & Hc & Hcaps & Hnl).
  (* the marker *)
  assert (Hm : exists m s1, s = m :: s1 /\ (m = "-"%char \/ m = "*"%char) /\
                 x1 = MState (Some m) s1 ∅).
  { apply in_run_Alt in H1 as [H1|H1];
      apply in_run_lit in H1 as (s1 & E & ->); simpl in E; eauto 6. }
  destruct Hm as (m & s1 & -> & Hm & ->).
  apply in_run_lit in H2 as (s2 & E2 & ->). simpl in E2. subst s1.
  apply in_run_lit in H3 as (s3 & E3 & ->). simpl in E3. subst s2.
  simpl caps in *.
  (* the status token *)
  assert (Htok : exists tok, s3 = tok ++ rest x4 /\ status_token tok /\
                   caps x4 = match tok with
                             | [] => ∅
                             | _ => {[ "complete" := str tok ]}
                             end).
  { apply in_run_Opt in H4 as [H4| ->].
    - apply in_run_Group in H4 as (z & Hz & ->).
      assert (Hz' : exists t s4, s3 = t :: s4 /\
                      (is_space t = true \/ t = "x"%char) /\
                      z = MState (Some t) s4 ∅).
      { apply in_run_Alt in Hz as [Hz|Hz].
        - apply in_run_Chr in Hz as (t & s4 & E & Ht & ->). simpl in *.
          eauto 6.
        - apply in_run_lit in Hz as (s4 & E & ->). simpl in *. eauto 6. }
      destruct Hz' as (t & s4 & -> & Ht & ->).
      exists [t]. simpl. split; [reflexivity|].
      rewrite (consumed_one _ t s4) by reflexivity.
      split; [|reflexivity].
      destruct Ht as [Ht| ->]; [right; left; eauto|right; now right].
    - exists []. simpl. split; [reflexivity|]. split; [now left|reflexivity]. }
  destruct Htok as (tok & -> & Htok & Hcaps4).
  apply in_run_lit in H5 as (s5 & E5 & ->).
  (* the white space after the bracket *)
  unfold Plus in H6. apply in_run_Seq in H6 as (y & Hy & H6).
  apply in_run_Chr in Hy as (w0 & s6 & E6 & Hw0 & ->). simpl in E6, Hw0.
  rewrite run_Star_Chr in H6.
  apply in_chr_star_states in H6 as (ws & Hws & Hall & Hcaps6).
  simpl in Hws, Hcaps6.
  exists m, tok, (w0 :: ws), c, b.
  split.
  { rewrite E5. subst s5 s6. rewrite Hrest. reflexivity. }
  split; [assumption|]. split; [assumption|].
  split; [discriminate|].
  split; [simpl; now rewrite Hw0|].
  split; [assumption|].
  rewrite Hcaps, Hcaps6, Hcaps4.
  split; [apply lookup_insert_eq|].
  split; [|assumption].
  rewrite lookup_insert_ne by discriminate.
  destruct tok; [apply lookup_empty|apply lookup_singleton_eq].
Qed.

(** The leftmost match begins somewhere in the input. *)
Lemma find_match_Some re p s i r :
  find_match re p s i = Some r ->
  exists pre p',
    s = pre ++ snd (fst r) /\ fst (fst r) = i + length pre /\
    exec_here re p' (snd (fst r)) = Some (snd r).
Proof.
  revert p i. induction s as [|c s IH]; intros p i; simpl.
  - destruct (exec_here re p []) eqn:E; [|discriminate].
    intros [= <-]. exists [], p. simpl. auto.
  - destruct (exec_here re p (c :: s)) eqn:E.
    + intros [= <-]. exists [], p. simpl. auto.
    + intros H. apply IH in H as (pre & p' & Hs & Hi & He).
      exists (c :: pre), p'. simpl. rewrite <- Hs.
      split; [reflexivity|]. split; [lia|assumption].
Qed.

(** *** [parseLine] through its two fields *)

Lemma parseLine_fields_eq emptyTask line :
  TaskParserTs.TaskParser.parseLine emptyTask line =
  match parseLine_fields line with
  | Normal (Some f) => Normal (Some (task_of emptyTask f))
  | Normal None => Normal None
  | Throw e => Throw e
  end.
Proof.
  unfold TaskParserTs.TaskParser.parseLine, parseLine_fields, task_of.
  destruct (string_match _ _); [reflexivity| |];
    (destruct (groups_of _) as [g|]; [|reflexivity];
     destruct (g !! "taskLine"); reflexivity).
Qed.

Lemma chars_str l : chars (str l) = l.
Proof. apply list_ascii_of_string_of_list_ascii. Qed.

Lemma status_token_complete tok :
  status_token tok ->
  bool_decide (match tok with [] => None | _ => Some (str tok) end
               = Some "x") = bool_decide (tok = ["x"%char]).
Proof.
  intros [->|[(t & -> & Ht)| ->]]; [reflexivity| |reflexivity].
  destruct (decide (t = "x"%char)) as [->|Hne]; [discriminate|].
  rewrite !bool_decide_eq_false_2; [reflexivity| |].
  - intros [= H]. now apply Hne.
  - cbn. intros [= H]. now apply Hne.
Qed.

Lemma strict_has_named_group :
  has_named_group (pattern TaskParserTs.TaskParser.strictPattern) = true.
Proof. reflexivity. Qed.

(** Every match of [parseLine], read off the line. *)
Lemma parseLine_fields_shape line complete name :
  parseLine_fields line = Normal (Some (complete, name)) ->
  exists pre m tok ws c b,
    chars line =
      pre ++ m :: " "%char :: "["%char :: tok ++ "]"%char :: ws ++ c :: b /\
    (m = "-"%char \/ m = "*"%char) /\
    status_token tok /\
    ws <> [] /\ forallb is_space ws = true /\
    is_space c = false /\
    name = str (trim_chars (c :: fst (span (NoneOf "^") b))) /\
    complete = bool_decide (tok = ["x"%char]) /\
    no_line_terminator (snd (span (NoneOf "^") b)) = true.
Proof.
  unfold parseLine_fields, string_match.
  cbn [global TaskParserTs.TaskParser.strictPattern].
  destruct (find_match _ None (chars line) 0) as [[[i from] st']|] eqn:E;
    [|discriminate].
  apply find_match_Some in E as (pre & p' & Hs & _ & He). simpl in Hs, He.
  apply strict_exec_shape in He
    as (m & tok & ws & c & b & Hfrom & Hm & Htok & Hws & Hall & Hc &
        Htl & Hcpl & Hnl).
  cbn [groups_of groups]. rewrite strict_has_named_group.
  rewrite Htl, Hcpl. intros [= <- <-].
  exists pre, m, tok, ws, c, b. rewrite Hs, Hfrom.
  split; [reflexivity|]. split; [assumption|]. split; [assumption|].
  split; [assumption|]. split; [assumption|]. split; [assumption|].
  split; [unfold trim; do 2 f_equal; exact (chars_str (c :: _))|].
  split; [now apply status_token_complete|assumption].
Qed.

(** [parseLine] never throws. *)
Lemma parseLine_fields_total line :
  exists r, parseLine_fields line = Normal r.
Proof.
  unfold parseLine_fields, string_match.
  cbn [global TaskParserTs.TaskParser.strictPattern].
  destruct (find_match _ None (chars line) 0) as [[[i from] st']|] eqn:E;
    [|eauto].
  apply find_match_Some in E as (pre & p' & Hs & _ & He). simpl in Hs, He.
  apply strict_exec_shape in He
    as (m & tok & ws & c & b & _ & _ & _ & _ & _ & _ & Htl & _).
  cbn [groups_of groups]. rewrite strict_has_named_group.
  rewrite Htl. eauto.
Qed.

End RegexFacts.

(* ===================================================================== *)
(** ** Properties of the line parser *)
(* ===================================================================== *)

Section LineParser.
Import Js Regex RegexAux RegexFacts TaskParserTs.

Lemma span_caret b :
  exists w t,
    span (NoneOf "^") b = (w, t) /\ b = w ++ t /\
    forallb (fun a => negb (Ascii.eqb "^" a)) w = true /\
    (t = [] \/ exists t', t = "^"%char :: t').
Proof.
  pose proof (span_app (NoneOf "^") b) as Happ.
  pose proof (span_prefix (NoneOf "^") b) as Hpre.
  pose proof (span_stop (NoneOf "^") b) as Hstop.
  destruct (span (NoneOf "^") b) as [w t]. cbn [fst snd] in *.
  exists w, t. split; [reflexivity|]. split; [assumption|].
  split; [exact Hpre|].
  destruct Hstop as [->|(c & t' & -> & Hc)]; [now left|right].
  cbn [cset_mem] in Hc.
  apply negb_false_iff, Ascii.eqb_eq in Hc. subst c. eauto.
Qed.

Lemma parseLine_at emptyTask line f :
  parseLine_fields line = Normal f ->
  TaskParser.parseLine emptyTask line =
  Normal (task_of emptyTask <$> f).
Proof.
  intros H. rewrite parseLine_fields_eq, H. now destruct f.
Qed.

(** The match of [parseLine] neither reads nor writes the [lastIndex] of
    the static pattern, the only state the function could share between two
    calls. *)
Lemma string_match_st_static line lastIndex :
  string_match_st line TaskParser.strictPattern lastIndex =
  (string_match line TaskParser.strictPattern, lastIndex).
Proof.
  unfold string_match_st, string_match, regexp_exec.
  cbn [global TaskParser.strictPattern]. cbn [Nat.ltb Nat.leb].
  change (char_before (chars line) 0) with (@None ascii).
  change (drop 0 (chars line)) with (chars line).
  now destruct (find_match _ None (chars line) 0) as [[[i from] st']|].
Qed.

(** C4. [parseLine] is total and deterministic: on every line it returns,
    either a task or null, and never throws; its match leaves the state of
    the pattern as it finds it and does not depend on it; the same line
    gives the same result. *)
Theorem parseLine_total_deterministic :
  forall emptyTask : gmap string value,
    (forall L, exists r, TaskParser.parseLine emptyTask L = Normal r) /\
    (forall L lastIndex,
       string_match_st L TaskParser.strictPattern lastIndex =
       (string_match L TaskParser.strictPattern, lastIndex)) /\
    (forall L1 L2, L1 = L2 ->
       TaskParser.parseLine emptyTask L1 = TaskParser.parseLine emptyTask L2).
Proof.
  intros emptyTask. split; [|split].
  - intros L. destruct (parseLine_fields_total L) as (r & Hr).
    exists (task_of emptyTask <$> r). now apply parseLine_at.
  - apply string_match_st_static.
  - intros L1 L2 ->. reflexivity.
Qed.

Lemma parseLine_total_deterministic_witness :
  TaskParser.parseLine ∅ "- [ ] Buy milk" =
  TaskParser.parseLine ∅ "- [ ] Buy milk".
Proof.
  apply (proj2 (proj2 (parseLine_total_deterministic ∅))). reflexivity.
Defined.

(** C2, as the claim states it, fails: an upper-case X between the brackets
    is no status token of the pattern [parseLine] uses, so the line is not
    parsed as a task at all; and brackets with nothing between them are
    accepted, as an incomplete task. *)
Lemma parseLine_upper_X_rejected :
  ~ (exists emptyTask t,
       TaskParser.parseLine emptyTask "* [X] Review PR" = Normal (Some t) /\
       t !! "complete" = Some (Bool true)) /\
  TaskParser.parseLine ∅ "- [] a" =
    Normal (Some (<["name" := Str "a"]> (<["complete" := Bool false]> ∅))).
Proof.
  split.
  - intros (e & t & H & _).
    rewrite (parseLine_at e _ None) in H by (vm_compute; reflexivity).
    discriminate.
  - apply (parseLine_at ∅ _ (Some (false, "a"))). vm_compute. reflexivity.
Qed.

(** C3, as the claim states it, fails. [parseLine] reads no identifier:
    whatever [emptyTask] is, the property id of the task parsed from
    "- [x] Call Bob ^a1" is the one of the task parsed from
    "- [ ] Buy milk". And the text ends at the first caret, also where no
    identifier follows: "- [ ] 2^10 is big" has the text "2", where the
    words of the spec give "2^10 is big". *)
Lemma parseLine_reads_no_identifier :
  ~ (exists emptyTask t1 t2,
       TaskParser.parseLine emptyTask "- [ ] Buy milk" = Normal (Some t1) /\
       t1 !! "id" <> Some (Str "a1") /\
       TaskParser.parseLine emptyTask "- [x] Call Bob ^a1"
         = Normal (Some t2) /\
       t2 !! "id" = Some (Str "a1")) /\
  TaskParser.parseLine ∅ "- [ ] 2^10 is big" =
    Normal (Some (<["name" := Str "2"]> (<["complete" := Bool false]> ∅))) /\
  spec_display_text " 2^10 is big" = "2^10 is big".
Proof.
  split; [|split].
  - intros (e & t1 & t2 & H1 & Hne & H2 & Hid).
    rewrite (parseLine_at e _ (Some (false, "Buy milk"))) in H1
      by (vm_compute; reflexivity).
    rewrite (parseLine_at e _ (Some (true, "Call Bob"))) in H2
      by (vm_compute; reflexivity).
    simpl in H1, H2. injection H1 as <-. injection H2 as <-.
    apply Hne. unfold task_of in *. simpl in *.
    rewrite !lookup_insert_ne in Hid by discriminate.
    now rewrite !lookup_insert_ne by discriminate.
  - apply (parseLine_at ∅ _ (Some (false, "2"))). vm_compute. reflexivity.
  - vm_compute. reflexivity.
Qed.

(** The unused general pattern does take an upper-case X between the
    brackets, and captures it as it is written: the test [complete === 'x']
    of the parse functions would still answer false for it. *)
Lemma generalPattern_upper_X :
  exists g,
    groups_of (string_match "* [X] Review PR" TaskParser.generalPattern)
      = Some g /\
    g !! "complete" = Some "X" /\ g !! "taskLine" = Some "Review PR".
Proof.
  eexists. split; [vm_compute; reflexivity|].
  split; vm_compute; reflexivity.
Qed.

Lemma skip_space_snoc a c :
  is_space c = false -> skip_space (a ++ [c]) = skip_space a ++ [c].
Proof.
  intros Hc. induction a as [|x a IH]; simpl; [now rewrite Hc|].
  now destruct (is_space x).
Qed.

Lemma skip_space_In l x : In x (skip_space l) -> In x l.
Proof.
  induction l as [|y l IH]; simpl; [auto|].
  destruct (is_space y); [auto|]. simpl. auto.
Qed.

(** Trimming a text that starts with a character that is not white space
    only drops white space at its end. *)
Lemma trim_chars_head c w :
  is_space c = false ->
  trim_chars (c :: w) = c :: rev (skip_space (rev w)).
Proof.
  intros Hc. unfold trim_chars. simpl skip_space. rewrite Hc.
  simpl rev. rewrite skip_space_snoc by assumption.
  now rewrite rev_app_distr.
Qed.

(** In the text [parseLine] returns, a caret can only be the first
    character. *)
Lemma parseLine_caret_only_first emptyTask line t :
  TaskParser.parseLine emptyTask line = Normal (Some t) ->
  exists c w,
    t !! "name" = Some (Str (str (c :: w))) /\
    is_space c = false /\
    forallb (fun a => negb (Ascii.eqb "^" a)) w = true.
Proof.
  intros H. rewrite parseLine_fields_eq in H.
  destruct (parseLine_fields line) as [[[cpl nm]|]|] eqn:E;
    try discriminate.
  injection H as <-.
  apply parseLine_fields_shape in E
    as (pre & m & tok & ws & c & b & _ & _ & _ & _ & _ & Hc & -> & _ & _).
  destruct (span_caret b) as (w & rest & Hsp & _ & Hw & _).
  rewrite Hsp. simpl fst. rewrite trim_chars_head by assumption.
  exists c, (rev (skip_space (rev w))).
  split; [unfold task_of; apply lookup_insert_eq|].
  split; [assumption|].
  apply forallb_forall. intros x Hx.
  apply in_rev, skip_space_In, in_rev in Hx.
  now apply (proj1 (forallb_forall _ _) Hw).
Qed.

(** C8. The pattern [parseLine] uses is not anchored, so a marker after
    other text is matched, where the module pattern of the same name finds
    nothing; and the first character of the body may be a caret. *)
Theorem parseLine_marker_after_text :
  forall emptyTask : gmap string value,
    TaskParser.parseLine emptyTask "foo - [ ] bar" =
      Normal (Some (<["name" := Str "bar"]>
                      (<["complete" := Bool false]> emptyTask))) /\
    string_match "foo - [ ] bar" strictPattern = MatchNull /\
    TaskParser.parseLine emptyTask "- [ ] ^abc" =
      Normal (Some (<["name" := Str "^abc"]>
                      (<["complete" := Bool false]> emptyTask))).
Proof.
  intros e. split; [|split].
  - apply (parseLine_at e _ (Some (false, "bar"))). vm_compute. reflexivity.
  - vm_compute. reflexivity.
  - apply (parseLine_at e _ (Some (false, "^abc"))). vm_compute. reflexivity.
Qed.

End LineParser.

(* ===================================================================== *)
(** ** Properties of [parseFileContents] *)
(* ===================================================================== *)

Section FileContents.
Import Js Regex RegexAux RegexFacts TaskParserTs Examples.

(** The module pattern carries the flag g, so [line.match] answers null or
    the plain array of the matched substrings, never an array with groups. *)
Lemma strictPattern_no_groups line :
  groups_of (string_match line strictPattern) = None.
Proof.
  unfold string_match. cbn [global strictPattern].
  now destruct (match_all _ _ _ _).
Qed.

(** No record is ever added: a cached line that matches ends the call. *)
Lemma parseCacheTasks_Normal filePath lines cacheTasks ret ret' :
  parseCacheTasks filePath lines cacheTasks ret = Normal ret' -> ret' = ret.
Proof.
  revert ret. induction cacheTasks as [|li more IH]; intros ret; simpl.
  - now intros [= ->].
  - destruct (Nat.leb _ _); [discriminate|].
    destruct (lines !! _) as [line|]; [|discriminate].
    pose proof (strictPattern_no_groups line) as Hg.
    destruct (string_match line strictPattern); simpl in Hg.
    + apply IH.
    + rewrite Hg. discriminate.
    + discriminate.
Qed.

(** C5. With every cached line number in range and the cached line a task
    line, [parseFileContents] throws a TypeError instead of returning the
    record of the task; a cached line number past the last line of a
    two-line document is accepted, because the separators count as lines;
    and whenever the call returns, what it returns is empty. *)
Theorem parseFileContents_task_line_throws :
  parseFileContents "f.md" "- [ ] a"
    (mkCachedMetadata (Some [mkListItemCache (Some " ") 0 (-1)]))
    = Throw TypeError /\
  parseFileContents "f.md" two_lines
    (mkCachedMetadata (Some [mkListItemCache (Some " ") 2 (-1)]))
    = Normal ∅ /\
  (forall filePath contents fileCache ret,
     parseFileContents filePath contents fileCache = Normal ret ->
     ret = ∅).
Proof.
  split; [|split].
  - vm_compute. reflexivity.
  - vm_compute. reflexivity.
  - intros filePath contents fileCache ret. unfold parseFileContents.
    destruct (listItems fileCache); [|discriminate].
    apply parseCacheTasks_Normal.
Qed.

Lemma parseFileContents_task_line_throws_witness :
  (∅ : gmap nat AnonymousDisplayTask) = ∅.
Proof.
  apply (proj2 (proj2 parseFileContents_task_line_throws)
           "f.md" two_lines
           (mkCachedMetadata (Some [mkListItemCache (Some " ") 2 (-1)]))).
  vm_compute. reflexivity.
Defined.

End FileContents.

(* ===================================================================== *)
(** ** Properties of the change classifier *)
(* ===================================================================== *)

Section FileManagerFacts.
Import Js JsObj Plugin.

Lemma with_fileStates_same {D} (p : Plugin D) :
  with_fileStates p (fileStates p) = p.
Proof. now destruct p. Qed.

Lemma testAndSet_dirty states p st :
  states !! p = Some st -> status st = DIRTY ->
  testAndSetFileStatus states p CLEAN =
  (false, <[p := mkFileStateHash CLEAN (hash st)]> states).
Proof.
  intros H Hd. unfold testAndSetFileStatus. rewrite H.
  destruct (decide (status st = CLEAN)); [congruence|reflexivity].
Qed.

Lemma testAndSet_not_dirty states p :
  (forall st, states !! p = Some st -> status st = CLEAN) ->
  testAndSetFileStatus states p CLEAN = (true, states).
Proof.
  intros H. unfold testAndSetFileStatus.
  destruct (states !! p) as [st|] eqn:E; [|reflexivity].
  destruct (decide (status st = CLEAN)) as [|Hne]; [reflexivity|].
  now specialize (H st eq_refl).
Qed.

Lemma status_cases (s : CacheStatus) : s = CLEAN \/ s = DIRTY.
Proof. destruct s; auto. Qed.
End FileManagerFacts.

Section MainFacts.
Import Js JsObj Plugin MainTs.

Variable hashFileTaskState : TaskInstanceIndex -> string.
Variable instanceIndexKey : string -> nat -> string.
Variable taskLocationStr : TaskInstance -> string.

Local Abbreviation handle :=
  (handleCacheChanged hashFileTaskState instanceIndexKey taskLocationStr).

(** A notification stopped at one of the first two tests changes nothing. *)
Lemma handle_gate h p file :
  otherViewActive h file = true \/ notActiveFile p file = true \/
  ignorePath p (path file) = true ->
  handle h p file = finished p.
Proof.
  intros H. unfold handleCacheChanged.
  destruct (otherViewActive h file); [reflexivity|].
  destruct H as [H|[->| ->]]; [discriminate|reflexivity|].
  now rewrite orb_true_r.
Qed.

(** Past the first two tests, a DIRTY status ends the handler. *)
Lemma handle_dirty h p file st :
  otherViewActive h file = false -> notActiveFile p file = false ->
  ignorePath p (path file) = false ->
  fileStates p !! path file = Some st -> status st = DIRTY ->
  handle h p file =
  finished (with_fileStates p
              (<[path file := mkFileStateHash CLEAN (hash st)]>
                 (fileStates p))).
Proof.
  intros H1 H2 H3 Hst Hd. unfold handleCacheChanged.
  rewrite H1, H2, H3. cbn [orb].
  now rewrite (testAndSet_dirty _ _ st).
Qed.

(** Past the first two tests and the status test, the hashes decide. *)
Lemma handle_clean h p file :
  otherViewActive h file = false -> notActiveFile p file = false ->
  ignorePath p (path file) = false ->
  (forall st, fileStates p !! path file = Some st -> status st = CLEAN) ->
  handle h p file =
  match activeView h with
  | None => mkOutcome p (Some TypeError)
  | Some view =>
      let live :=
        dropCursorTask instanceIndexKey file (cursor_line view)
          (getInstanceIndexFromFile h file) in
      if negb (String.eqb (hashFileTaskState live)
                 (hashFileTaskState
                    (existingFileInstanceIndex taskLocationStr p file)))
      then finished (callDebouncer p (path file) (MODIFY_FILE_TASKS live))
      else finished p
  end.
Proof.
  intros H1 H2 H3 Hst. unfold handleCacheChanged.
  rewrite H1, H2, H3. cbn [orb].
  rewrite testAndSet_not_dirty by assumption. cbn [negb].
  now rewrite with_fileStates_same.
Qed.

Lemma no_dispatch_finished p : no_dispatch p (finished p).
Proof. repeat split. Qed.

Lemma no_dispatch_fileStates p fs e :
  no_dispatch p (mkOutcome (with_fileStates p fs) e).
Proof. repeat split. Qed.

End MainFacts.

Section JsObjFacts.
Import JsObj.
Context {V : Type}.

Lemma get_remove_same (o : jsobj V) k : get (remove o k) k = None.
Proof.
  induction o as [|[k' v] o IH]; simpl; [reflexivity|].
  destruct (String.eqb k k') eqn:E; [assumption|].
  simpl. now rewrite E.
Qed.

End JsObjFacts.

Section ChangeClassifier.
Import Js JsObj Plugin MainTs.

Variable hashFileTaskState : TaskInstanceIndex -> string.
Variable filterIndexByPath : string -> TaskInstanceIndex -> TaskInstanceIndex.
Variable instanceIndexKey : string -> nat -> string.
Variable taskLocationStr : TaskInstance -> string.

Local Abbreviation handle :=
  (handleCacheChanged hashFileTaskState instanceIndexKey taskLocationStr).
Local Abbreviation fileOpen :=
  (onFileOpen hashFileTaskState filterIndexByPath).
Local Abbreviation existing := (existingFileInstanceIndex taskLocationStr).
Local Abbreviation dropCursor := (dropCursorTask instanceIndexKey).

(** The two outcomes of the callback of 'file-open' for a document that is
    not ignored. *)
Lemma fileOpen_differ h p file :
  ignorePath p (path file) = false ->
  hashFileTaskState (filterIndexByPath (path file) (instanceIndex p)) <>
    hashFileTaskState (readMarkdownFile h file) ->
  exists w,
    fileOpen h p (Some file) =
    write (with_fileStates (with_activeFile p file)
             (<[path file :=
                  mkFileStateHash DIRTY
                    (hashFileTaskState
                       (filterIndexByPath (path file) (instanceIndex p)))]>
                (fileStates p)))
          w.
Proof.
  intros Hi Hne. unfold onFileOpen. rewrite Hi.
  apply String.eqb_neq in Hne. cbn [instanceIndex with_activeFile].
  rewrite Hne. cbn [negb]. unfold setFileStateHash.
  cbn [fileStates with_fileStates with_activeFile indexFiles].
  destruct (decide (path file ∈ indexFiles p)); eauto.
Qed.


(** C1, amended. The callback of 'file-open' that writes a document back
    leaves it DIRTY and active. While a document is DIRTY, a change
    notification for it dispatches nothing and does not throw; when the
    document is the active file, is not ignored and no markdown view shows
    another document, the notification also flips the status to CLEAN, and
    the status test then lets the next notification through; otherwise the
    notification changes nothing, and the document stays DIRTY. *)
Theorem self_write_notification_swallowed :
  (forall h p D,
     ignorePath p (path D) = false ->
     hashFileTaskState (filterIndexByPath (path D) (instanceIndex p)) <>
       hashFileTaskState (readMarkdownFile h D) ->
     activeFile (fileOpen h p (Some D)) = Some D /\
     (exists w, writes (fileOpen h p (Some D)) = writes p ++ [w]) /\
     fileStatus (fileOpen h p (Some D)) (path D) = Some DIRTY) /\
  (forall h p D,
     fileStatus p (path D) = Some DIRTY ->
     thrown (handle h p D) = None /\
     no_dispatch p (handle h p D) /\
     (otherViewActive h D = false -> notActiveFile p D = false ->
      ignorePath p (path D) = false ->
      fileStatus (final (handle h p D)) (path D) = Some CLEAN /\
      fst (testAndSetFileStatus (fileStates (final (handle h p D)))
             (path D) CLEAN) = true) /\
     (otherViewActive h D = true \/ notActiveFile p D = true \/
      ignorePath p (path D) = true ->
      final (handle h p D) = p)).
Proof.
  split.
  - intros h p D Hi Hne.
    destruct (fileOpen_differ h p D Hi Hne) as (w & ->).
    unfold fileStatus, getFileStateHash.
    cbn [write with_fileStates with_activeFile activeFile writes fileStates].
    split; [reflexivity|]. split; [eauto|].
    now rewrite lookup_insert_eq.
  - intros h p D Hd.
    assert (Hgate : otherViewActive h D = true \/ notActiveFile p D = true \/
                    ignorePath p (path D) = true ->
                    final (handle h p D) = p)
      by (intros Hg; now rewrite handle_gate).
    unfold fileStatus, getFileStateHash in Hd.
    destruct (fileStates p !! path D) as [st|] eqn:Hst; [|discriminate].
    injection Hd as Hd.
    destruct (otherViewActive h D) eqn:H1;
      [rewrite handle_gate by auto; repeat split; discriminate|].
    destruct (notActiveFile p D) eqn:H2;
      [rewrite handle_gate by auto; repeat split; discriminate|].
    destruct (ignorePath p (path D)) eqn:H3;
      [rewrite handle_gate by auto; repeat split; discriminate|].
    split; [|split; [|split; [|exact Hgate]]];
      rewrite (handle_dirty _ _ _ _ _ _ st) by assumption.
    + reflexivity.
    + apply no_dispatch_fileStates.
    + intros _ _ _. unfold fileStatus, getFileStateHash.
      cbn [finished final fileStates with_fileStates].
      rewrite lookup_insert_eq. split; [reflexivity|].
      rewrite testAndSet_not_dirty; [reflexivity|].
      intros st'. rewrite lookup_insert_eq. now intros [= <-].
Qed.

(** With equal fingerprints nothing is dispatched, whatever the status. *)
Lemma handle_same_hash h p file :
  (forall v, activeView h = Some v ->
     hashFileTaskState
       (dropCursor file (cursor_line v) (getInstanceIndexFromFile h file)) =
     hashFileTaskState (existing p file)) ->
  exists fs e,
    handle h p file = mkOutcome (with_fileStates p fs) e /\
    (forall st, fs !! path file = Some st ->
       otherViewActive h file = false -> notActiveFile p file = false ->
       ignorePath p (path file) = false -> status st = CLEAN).
Proof.
  intros Hh.
  destruct (otherViewActive h file) eqn:H1.
  { exists (fileStates p), None. rewrite handle_gate by auto.
    rewrite with_fileStates_same. split; [reflexivity|discriminate]. }
  destruct (notActiveFile p file) eqn:H2.
  { exists (fileStates p), None. rewrite handle_gate by auto.
    rewrite with_fileStates_same. split; [reflexivity|discriminate]. }
  destruct (ignorePath p (path file)) eqn:H3.
  { exists (fileStates p), None. rewrite handle_gate by auto.
    rewrite with_fileStates_same. split; [reflexivity|discriminate]. }
  destruct (fileStates p !! path file) as [st|] eqn:Hst.
  - destruct (status_cases (status st)) as [Hs|Hs].
    + rewrite handle_clean by (try assumption; congruence).
      exists (fileStates p). rewrite with_fileStates_same.
      destruct (activeView h) as [v|] eqn:Hv.
      * cbn zeta. rewrite (Hh v eq_refl), String.eqb_refl. cbn [negb].
        exists None. split; [reflexivity|]. intros st' E. congruence.
      * exists (Some TypeError). split; [reflexivity|]. intros st' E.
        congruence.
    + rewrite (handle_dirty _ _ _ _ _ _ st) by assumption.
      eexists _, None. split; [reflexivity|].
      intros st'. rewrite lookup_insert_eq. now intros [= <-].
  - rewrite handle_clean by (try assumption; congruence).
    exists (fileStates p). rewrite with_fileStates_same.
    destruct (activeView h) as [v|] eqn:Hv.
    + cbn zeta. rewrite (Hh v eq_refl), String.eqb_refl. cbn [negb].
      exists None. split; [reflexivity|]. congruence.
    + exists (Some TypeError). split; [reflexivity|]. congruence.
Qed.









(** C7, amended. In main.ts a change notification for a document that is
    not the active file, or while a markdown view shows another document,
    changes nothing at all, and without an active markdown view nothing is
    dispatched either. In the second copy of the plugin class a
    notification is dropped only while a markdown view is active and shows
    another document. *)
Theorem inactive_document_not_reconciled :
  (forall h p file,
     notActiveFile p file = true \/ otherViewActive h file = true ->
     handle h p file = finished p) /\
  (forall h p file,
     activeView h = None -> no_dispatch p (handle h p file)) /\
  (forall (FileTaskState : Type) test (h : Part001.Host FileTaskState)
          (p : Plugin FileTaskState) file v,
     Part001.activeView h = Some v ->
     path (view_file v) <> path file ->
     published (Part001.handleCacheChanged test h p file) = published p).
Proof.
  split; [|split].
  - intros h p file [H|H]; apply handle_gate; auto.
  - intros h p file Hv.
    unfold handleCacheChanged, otherViewActive. rewrite Hv.
    destruct (notActiveFile p file || ignorePath p (path file));
      [apply no_dispatch_finished|].
    destruct (testAndSetFileStatus _ _ _) as [[] fs]; cbn [negb];
      apply no_dispatch_fileStates.
  - intros F test h p file v Hv Hne. unfold Part001.handleCacheChanged.
    destruct (test _ _ _) as [[] fs]; cbn [negb]; [|reflexivity].
    rewrite Hv. apply String.eqb_neq in Hne. rewrite Hne. reflexivity.
Qed.

(** C9. On a change notification that reaches the comparison, an entry of
    the live index at the cursor line whose uid is 0 is removed before the
    fingerprints are compared: the index that is hashed, and dispatched if
    the hashes differ, is the live index without that entry. So when the
    rest of the live index hashes like the stored one, nothing is
    dispatched. *)
Theorem cursor_anonymous_task_ignored :
  forall h p file v i,
    activeView h = Some v ->
    get (getInstanceIndexFromFile h file)
        (instanceIndexKey (path file) (cursor_line v)) = Some i ->
    prop i "uid" = Num 0 ->
    let key := instanceIndexKey (path file) (cursor_line v) in
    let live := remove (getInstanceIndexFromFile h file) key in
    get live key = None /\
    (otherViewActive h file = false -> notActiveFile p file = false ->
     ignorePath p (path file) = false ->
     fileStatus p (path file) <> Some DIRTY ->
     handle h p file =
     if String.eqb (hashFileTaskState live)
                   (hashFileTaskState (existing p file))
     then finished p
     else finished (callDebouncer p (path file) (MODIFY_FILE_TASKS live))) /\
    (hashFileTaskState live = hashFileTaskState (existing p file) ->
     no_dispatch p (handle h p file)).
Proof.
  intros h p file v i Hv Hget Huid key live.
  assert (Hdrop : dropCursor file (cursor_line v)
                    (getInstanceIndexFromFile h file) = live).
  { unfold dropCursorTask, has. rewrite Hget, Huid. reflexivity. }
  split; [apply get_remove_same|]. split.
  - intros H1 H2 H3 Hnd. rewrite handle_clean; try assumption.
    + rewrite Hv. cbn zeta. rewrite Hdrop.
      now destruct (String.eqb _ _).
    + intros st Hst. destruct (status_cases (status st)) as [|Hd];
        [assumption|].
      exfalso. apply Hnd. unfold fileStatus, getFileStateHash.
      rewrite Hst. cbn. now rewrite Hd.
  - intros Hh.
    destruct (handle_same_hash h p file) as (fs & e & E & _).
    + intros v' Hv'. rewrite Hv in Hv'. injection Hv' as <-.
      now rewrite Hdrop.
    + rewrite E. apply no_dispatch_fileStates.
Qed.

End ChangeClassifier.

Section FileEvents.
Import Js JsObj Plugin.

(** C10. For a deleted file, [handleFileDeleted] publishes DELETE_FILE
    exactly when the path has a recorded file state hash, and for a rename
    [handleFileRenamed] publishes RENAME_FILE exactly when the old path has
    one; for a path that was never tracked the handlers leave the whole
    state, the task index included, as it was. (A deleted folder is not a
    deleted file: nothing is published for it.) *)
Theorem untracked_delete_rename_ignored :
  forall (D : Type) (p : Plugin D) (abstractFile : TAbstractFile)
         (oldPath : string),
    (isTFile abstractFile = true ->
     (published (handleFileDeleted p abstractFile) =
        published p ++ [DELETE_FILE (path abstractFile)] <->
      is_Some (getFileStateHash (fileStates p) (path abstractFile)))) /\
    (published (handleFileRenamed p abstractFile oldPath) =
       published p ++ [RENAME_FILE oldPath (path abstractFile)] <->
     is_Some (getFileStateHash (fileStates p) oldPath)) /\
    (getFileStateHash (fileStates p) (path abstractFile) = None ->
     handleFileDeleted p abstractFile = p) /\
    (getFileStateHash (fileStates p) oldPath = None ->
     handleFileRenamed p abstractFile oldPath = p) /\
    (isTFile abstractFile = false -> handleFileDeleted p abstractFile = p).
Proof.
  intros D p f oldPath.
  assert (Hno : forall a : IndexUpdateAction D,
             published p <> published p ++ [a]).
  { intros a H. apply (f_equal length) in H. rewrite length_app in H.
    simpl in H. lia. }
  split; [|split; [|split; [|split]]].
  - intros Hf. unfold handleFileDeleted. rewrite Hf.
    destruct (getFileStateHash (fileStates p) (path f)) as [st|].
    + split; [eauto|reflexivity].
    + split; [intros H; now apply Hno in H|intros [? [=]]].
  - unfold handleFileRenamed.
    destruct (getFileStateHash (fileStates p) oldPath) as [st|].
    + split; [eauto|reflexivity].
    + split; [intros H; now apply Hno in H|intros [? [=]]].
  - intros H. unfold handleFileDeleted. rewrite H. now destruct (isTFile f).
  - intros H. unfold handleFileRenamed. now rewrite H.
  - intros H. unfold handleFileDeleted. now rewrite H.
Qed.

End FileEvents.

(* ===================================================================== *)
(** ** The properties at the example inputs *)
(* ===================================================================== *)

Section AtExamples.
Import Js JsObj Plugin MainTs Examples.

Local Abbreviation handleEx := (handleCacheChanged hashKeys keyOf locationOf).
Local Abbreviation fileOpenEx := (onFileOpen hashKeys entriesOf).

(** C1, as the claim states it, fails. D.md is opened with a task the index
    does not have, so it is written back and left DIRTY; E.md is opened
    next; the change notification for D.md then arrives while the markdown
    view shows E.md, and leaves D.md DIRTY. *)
Lemma background_write_back_stays_dirty :
  let p1 := fileOpenEx (host None) fresh (Some fileD) in
  let p2 := fileOpenEx (host None) p1 (Some fileE) in
  let r := handleEx (host (Some (mkView fileE 0))) p2 fileD in
  fileStatus p1 "D.md" = Some DIRTY /\
  writes p1 = [WriteStateToFile fileD []] /\
  fileStatus (final r) "D.md" = Some DIRTY.
Proof. vm_compute. auto. Qed.

Lemma self_write_notification_swallowed_witness :
  fileStatus
    (final (handleEx (host (Some (mkView fileD 0))) (activeD DIRTY) fileD))
    "D.md" = Some CLEAN.
Proof.
  destruct (proj2 (self_write_notification_swallowed
                     hashKeys entriesOf keyOf locationOf)
              (host (Some (mkView fileD 0))) (activeD DIRTY) fileD)
    as (_ & _ & H); [vm_compute; reflexivity|].
  apply H; vm_compute; reflexivity.
Defined.



(** C7, as the claim states it, fails in the second copy of the plugin
    class. Whatever the status test of the file manager does, the handler
    treats a notification that arrives with no markdown view active as it
    treats one for the document the view shows; so a notification for
    D.md that passes the status test is published although no view is
    active and D.md is not the document in focus. *)
Lemma notification_without_view_dispatched :
  Part001.activeView legacyHost = None /\
  (forall test (p : Plugin unit) file state line,
     Part001.handleCacheChanged test
       (Part001.mkHost None (fun _ => Some state)) p file =
     Part001.handleCacheChanged test
       (Part001.mkHost (Some (mkView file line)) (fun _ => Some state))
       p file) /\
  (forall test,
     fst (test (fileStates legacyD) "D.md" DIRTY) = true ->
     published (Part001.handleCacheChanged test legacyHost legacyD fileD)
       = [MODIFY_FILE_TASKS tt]).
Proof.
  split; [reflexivity|]. split.
  - intros test p file state line. unfold Part001.handleCacheChanged.
    destruct (test _ _ _) as [ok states]. cbn [Part001.activeView].
    cbn [view_file]. now rewrite String.eqb_refl.
  - intros test Hok. unfold Part001.handleCacheChanged.
    change (path fileD) with "D.md".
    destruct (test (fileStates legacyD) "D.md" DIRTY) as [ok states].
    cbn [fst] in Hok. subst ok. reflexivity.
Qed.

Lemma inactive_document_not_reconciled_witness :
  handleEx (host (Some (mkView fileD 0))) (activeD CLEAN) fileE
    = finished (activeD CLEAN).
Proof.
  apply (proj1 (inactive_document_not_reconciled
                  hashKeys keyOf locationOf)).
  left. vm_compute. reflexivity.
Defined.

Lemma cursor_anonymous_task_ignored_witness :
  no_dispatch (activeD CLEAN)
    (handleEx (host (Some (mkView fileD 3))) (activeD CLEAN) fileD).
Proof.
  apply (proj2 (proj2 (cursor_anonymous_task_ignored
                         hashKeys keyOf locationOf
                         (host (Some (mkView fileD 3))) (activeD CLEAN)
                         fileD (mkView fileD 3) (instance 0 "D.md" 3)
                         eq_refl eq_refl eq_refl))).
  vm_compute. reflexivity.
Defined.

Lemma untracked_delete_rename_ignored_witness :
  published (handleFileDeleted (activeD CLEAN) fileD) =
    published (activeD CLEAN) ++ [DELETE_FILE (path fileD)] <->
  is_Some (getFileStateHash (fileStates (activeD CLEAN)) (path fileD)).
Proof.
  apply (proj1 (untracked_delete_rename_ignored _ (activeD CLEAN) fileD "")).
  reflexivity.
Defined.

End AtExamples.

(* ===================================================================== *)
(** ** More on the line parser: the lines it accepts *)
(* ===================================================================== *)

Section LineParserAccepts.
Import Js Regex RegexAux RegexFacts TaskParserTs.

Lemma run_Chr_hit ml cs c p s cp :
  cset_mem cs c = true ->
  run ml (Chr cs) (MState p (c :: s) cp) = [MState (Some c) s cp].
Proof. intros H. cbn [run rest caps]. now rewrite H. Qed.

Lemma run_Chr_miss ml cs c p s cp :
  cset_mem cs c = false -> run ml (Chr cs) (MState p (c :: s) cp) = [].
Proof. intros H. cbn [run rest caps]. now rewrite H. Qed.

Lemma run_lit_hit ml c p s cp :
  run ml (lit c) (MState p (c :: s) cp) = [MState (Some c) s cp].
Proof. apply run_Chr_hit. apply Ascii.eqb_refl. Qed.

Lemma run_lit_miss ml c d p s cp :
  c <> d -> run ml (lit c) (MState p (d :: s) cp) = [].
Proof. intros H. apply run_Chr_miss. now apply Ascii.eqb_neq. Qed.

Lemma head_run_Seq_first ml a b st x l y :
  run ml a st = x :: l -> head (run ml b x) = Some y ->
  head (run ml (Seq a b) st) = Some y.
Proof.
  intros Ha Hb. rewrite run_Seq, Ha. simpl.
  destruct (run ml b x); [discriminate|]. exact Hb.
Qed.

Lemma span_exact cs w t :
  forallb (cset_mem cs) w = true ->
  (t = [] \/ exists c t', t = c :: t' /\ cset_mem cs c = false) ->
  span cs (w ++ t) = (w, t).
Proof.
  intros Hw Ht. induction w as [|a w IH]; simpl in *.
  - destruct Ht as [->|(c & t' & -> & Hc)]; [reflexivity|].
    simpl. now rewrite Hc.
  - apply andb_true_iff in Hw as [Ha Hw]. rewrite Ha, (IH Hw). reflexivity.
Qed.

(** The body and the end of the line, on an input that has them. *)
Lemma head_run_body_tail_exists name st c w rest0 :
  rest st = c :: w ++ rest0 ->
  is_space c = false ->
  forallb (cset_mem (NoneOf "^")) w = true ->
  (rest0 = [] \/ exists r, rest0 = "^"%char :: r) ->
  no_line_terminator rest0 = true ->
  exists st',
    head (run false (Seq (Group name body) line_tail) st) = Some st' /\
    caps st' = <[name := str (c :: w)]> (caps st).
Proof.
  intros Hrest Hc Hw Hr Hnl.
  assert (Hsp : span (NoneOf "^") (w ++ rest0) = (w, rest0)).
  { apply span_exact; [assumption|].
    destruct Hr as [->|(r & ->)]; [now left|right].
    exists "^"%char, r. split; reflexivity. }
  destruct (head (run false (Seq (Group name body) line_tail) st))
    as [st'|] eqn:E.
  - exists st'. split; [reflexivity|].
    apply head_run_body_tail in E as (c' & s' & Hrest' & _ & Hcaps & _).
    rewrite Hrest in Hrest'. injection Hrest' as <- <-.
    now rewrite Hcaps, Hsp.
  - exfalso. apply head_None in E. revert E.
    rewrite run_Seq.
    change (run false (Group name body) st)
      with (map (fun st1 =>
                   MState (prev st1) (rest st1)
                     (<[name := str (consumed st st1)]> (caps st1)))
                (run false body st)).
    rewrite run_body, Hrest, Hc.
    destruct (chr_star_states_first (NoneOf "^") (Some c) (w ++ rest0)
                (caps st)) as (f & more & -> & Hf & _ & _).
    rewrite Hsp in Hf. cbn [snd] in Hf. cbn [map flat_map].
    intros E. apply app_eq_nil in E as [E _]. revert E.
    apply run_line_tail_nonempty. cbn [rest]. now rewrite Hf.
Qed.

(** One or more white space characters, then the body. *)
Lemma head_run_spaces_body name st w0 ws c w rest0 :
  rest st = w0 :: ws ++ c :: w ++ rest0 ->
  forallb is_space (w0 :: ws) = true ->
  is_space c = false ->
  forallb (cset_mem (NoneOf "^")) w = true ->
  (rest0 = [] \/ exists r, rest0 = "^"%char :: r) ->
  no_line_terminator rest0 = true ->
  exists st',
    head (run false
            (Seq (Plus (Chr Space)) (Seq (Group name body) line_tail)) st)
      = Some st' /\
    caps st' = <[name := str (c :: w)]> (caps st).
Proof.
  intros Hrest Hws Hc Hw Hr Hnl. destruct st as [p s cp].
  simpl in Hrest. subst s. simpl in Hws.
  apply andb_true_iff in Hws as [Hw0 Hws].
  destruct (chr_star_states_first Space (Some w0) (ws ++ c :: w ++ rest0) cp)
    as (f & more & Hst & Hf & Hcp & _).
  rewrite (span_exact Space ws (c :: w ++ rest0)) in Hf.
  2: exact Hws.
  2: { right. exists c, (w ++ rest0). split; [reflexivity|]. exact Hc. }
  simpl in Hf.
  destruct (head_run_body_tail_exists name f c w rest0 Hf Hc Hw Hr Hnl)
    as (st' & Hhead & Hcaps).
  exists st'. split; [|now rewrite Hcaps, Hcp].
  apply (head_run_Seq_first _ _ _ _ f more); [|exact Hhead].
  unfold Plus. rewrite run_Seq, (run_Chr_hit _ Space) by exact Hw0.
  cbn [flat_map]. rewrite app_nil_r, run_Star_Chr. exact Hst.
Qed.

(** The optional status token, when a token is there. *)
Lemma run_status_some ml name t p s cp :
  is_space t = true \/ t = "x"%char ->
  run ml (Opt (Group name (Alt (Chr Space) (lit "x")))) (MState p (t :: s) cp)
  = [MState (Some t) s (<[name := str [t]]> cp); MState p (t :: s) cp].
Proof.
  intros Ht.
  assert (Halt : run ml (Alt (Chr Space) (lit "x")) (MState p (t :: s) cp)
                 = [MState (Some t) s cp]).
  { change (run ml (Alt (Chr Space) (lit "x")) (MState p (t :: s) cp))
      with (run ml (Chr Space) (MState p (t :: s) cp)
            ++ run ml (lit "x") (MState p (t :: s) cp)).
    destruct Ht as [Ht| ->].
    - rewrite (run_Chr_hit _ Space) by exact Ht.
      rewrite run_lit_miss; [reflexivity|]. intros <-. discriminate.
    - rewrite (run_Chr_miss _ Space) by reflexivity.
      now rewrite run_lit_hit. }
  change (run ml (Opt (Group name (Alt (Chr Space) (lit "x"))))
            (MState p (t :: s) cp))
    with (List.filter
            (fun st' => Nat.ltb (length (rest st')) (length (t :: s)))
            (map (fun st' =>
                    MState (prev st') (rest st')
                      (<[name := str (consumed (MState p (t :: s) cp) st')]>
                         (caps st')))
                 (run ml (Alt (Chr Space) (lit "x"))
                    (MState p (t :: s) cp)))
          ++ [MState p (t :: s) cp]).
  rewrite Halt. cbn [map List.filter rest prev caps].
  rewrite (consumed_one _ t s) by reflexivity.
  destruct (Nat.ltb_spec (length s) (length (t :: s))) as [_|H];
    [reflexivity|simpl in H; lia].
Qed.

(** The optional status token, when the brackets are empty. *)
Lemma run_status_none ml name d p s cp :
  is_space d = false -> d <> "x"%char ->
  run ml (Opt (Group name (Alt (Chr Space) (lit "x")))) (MState p (d :: s) cp)
  = [MState p (d :: s) cp].
Proof.
  intros Hd Hx.
  change (run ml (Opt (Group name (Alt (Chr Space) (lit "x"))))
            (MState p (d :: s) cp))
    with (List.filter
            (fun st' => Nat.ltb (length (rest st')) (length (d :: s)))
            (map (fun st' =>
                    MState (prev st') (rest st')
                      (<[name := str (consumed (MState p (d :: s) cp) st')]>
                         (caps st')))
                 (run ml (Chr Space) (MState p (d :: s) cp)
                  ++ run ml (lit "x") (MState p (d :: s) cp)))
          ++ [MState p (d :: s) cp]).
  rewrite (run_Chr_miss _ Space) by exact Hd.
  rewrite run_lit_miss by congruence. reflexivity.
Qed.

(** A match of the static pattern at the start of an input of the right
    shape. *)
Lemma strict_exec_accepts p m tok ws c w rest0 :
  (m = "-"%char \/ m = "*"%char) ->
  status_token tok ->
  ws <> [] -> forallb is_space ws = true ->
  is_space c = false ->
  forallb (cset_mem (NoneOf "^")) w = true ->
  (rest0 = [] \/ exists r, rest0 = "^"%char :: r) ->
  no_line_terminator rest0 = true ->
  exists st',
    exec_here TaskParser.strictPattern p
      (m :: " "%char :: "["%char :: tok ++ "]"%char :: ws ++ c :: w ++ rest0)
      = Some st' /\
    caps st' !! "taskLine" = Some (str (c :: w)) /\
    caps st' !! "complete" =
      match tok with [] => None | _ => Some (str tok) end.
Proof.
  intros Hm Htok Hne Hws Hc Hw Hr Hnl.
  destruct ws as [|w0 ws]; [congruence|].
  unfold exec_here. cbn [pattern multiline TaskParser.strictPattern].
  (* from the closing bracket on *)
  assert (Hclose : forall q cp,
            exists st',
              head (run false
                      (Seq (lit "]")
                         (Seq (Plus (Chr Space))
                            (Seq (Group "taskLine" body) line_tail)))
                      (MState q ("]"%char :: (w0 :: ws) ++ c :: w ++ rest0)
                         cp)) = Some st' /\
              caps st' = <["taskLine" := str (c :: w)]> cp).
  { intros q cp.
    destruct (head_run_spaces_body "taskLine"
                (MState (Some "]"%char) ((w0 :: ws) ++ c :: w ++ rest0) cp)
                w0 ws c w rest0 eq_refl Hws Hc Hw Hr Hnl)
      as (st' & Hh & Hcaps).
    exists st'. split; [|exact Hcaps].
    eapply head_run_Seq_first; [apply run_lit_hit|exact Hh]. }
  (* from the status token on *)
  assert (Htoken : forall q,
            exists st',
              head (run false
                      (Seq (Opt (Group "complete"
                                   (Alt (Chr Space) (lit "x"))))
                         (Seq (lit "]")
                            (Seq (Plus (Chr Space))
                               (Seq (Group "taskLine" body) line_tail))))
                      (MState q
                         (tok ++ "]"%char :: (w0 :: ws) ++ c :: w ++ rest0)
                         ∅)) = Some st' /\
              caps st' !! "taskLine" = Some (str (c :: w)) /\
              caps st' !! "complete" =
                match tok with [] => None | _ => Some (str tok) end).
  { intros q. destruct Htok as [->|[(t & -> & Ht)| ->]].
    - destruct (Hclose q ∅) as (st' & Hh & Hcaps).
      exists st'. split.
      + eapply head_run_Seq_first; [|exact Hh].
        apply run_status_none; [reflexivity|discriminate].
      + rewrite Hcaps. split; [apply lookup_insert_eq|].
        now rewrite lookup_insert_ne by discriminate.
    - destruct (Hclose (Some t) (<["complete" := str [t]]> ∅))
        as (st' & Hh & Hcaps).
      exists st'. split.
      + eapply head_run_Seq_first; [|exact Hh].
        apply run_status_some. now left.
      + rewrite Hcaps. split; [apply lookup_insert_eq|].
        rewrite lookup_insert_ne by discriminate. apply lookup_insert_eq.
    - destruct (Hclose (Some "x"%char) (<["complete" := str ["x"%char]]> ∅))
        as (st' & Hh & Hcaps).
      exists st'. split.
      + eapply head_run_Seq_first; [|exact Hh].
        apply run_status_some. now right.
      + rewrite Hcaps. split; [apply lookup_insert_eq|].
        rewrite lookup_insert_ne by discriminate. apply lookup_insert_eq. }
  destruct (Htoken (Some "["%char)) as (st' & Hh & Htl & Hcpl).
  exists st'. split; [|split; assumption].
  eapply head_run_Seq_first.
  { match goal with
    | |- run false (Alt _ _) ?st = _ =>
        change (run false (Alt (lit "-") (lit "*")) st)
          with (run false (lit "-") st ++ run false (lit "*") st)
    end.
    destruct Hm as [-> | ->].
    - rewrite run_lit_hit, run_lit_miss by discriminate. reflexivity.
    - rewrite run_lit_miss, run_lit_hit by discriminate. reflexivity. }
  eapply head_run_Seq_first; [apply run_lit_hit|].
  eapply head_run_Seq_first; [apply run_lit_hit|].
  exact Hh.
Qed.

End LineParserAccepts.

Section LineParserComplete.
Import Js Regex RegexAux RegexFacts TaskParserTs TaskLine.

Lemma find_match_cons re p c s i :
  find_match re p (c :: s) i =
  match exec_here re p (c :: s) with
  | Some st' => Some (i, c :: s, st')
  | None => find_match re (Some c) s (S i)
  end.
Proof. reflexivity. Qed.

Lemma exec_here_strict_no_marker p a s :
  is_marker a = false ->
  exec_here TaskParser.strictPattern p (a :: s) = None.
Proof.
  unfold is_marker. intros H. apply orb_false_iff in H as [H1 H2].
  apply Ascii.eqb_neq in H1, H2.
  unfold exec_here. cbn [pattern multiline TaskParser.strictPattern].
  rewrite run_Seq.
  match goal with
  | |- context [run false (Alt _ _) ?st] =>
      change (run false (Alt (lit "-") (lit "*")) st)
        with (run false (lit "-") st ++ run false (lit "*") st)
  end.
  rewrite !run_lit_miss by congruence. reflexivity.
Qed.

(** The search skips a text without a marker. *)
Lemma find_match_strict_skip pre s :
  forallb (fun a => negb (is_marker a)) pre = true ->
  forall p i, exists p',
    find_match TaskParser.strictPattern p (pre ++ s) i =
    find_match TaskParser.strictPattern p' s (i + length pre).
Proof.
  intros Hpre. induction pre as [|a pre IH]; intros p i.
  - exists p. simpl. now rewrite Nat.add_0_r.
  - simpl in Hpre. apply andb_true_iff in Hpre as [Ha Hpre].
    apply negb_true_iff in Ha.
    destruct (IH Hpre (Some a) (S i)) as (p' & E). exists p'.
    change ((a :: pre) ++ s) with (a :: (pre ++ s)).
    rewrite find_match_cons, exec_here_strict_no_marker by assumption.
    rewrite E. simpl length.
    now replace (i + S (length pre)) with (S i + length pre) by lia.
Qed.

(** A match somewhere in the input makes the search succeed. *)
Lemma find_match_complete re pre s :
  (forall p, exec_here re p s <> None) ->
  forall p i, find_match re p (pre ++ s) i <> None.
Proof.
  intros Hs. induction pre as [|a pre IH]; intros p i.
  - simpl. specialize (Hs p). destruct s; simpl;
      destruct (exec_here re p _); congruence.
  - change ((a :: pre) ++ s) with (a :: (pre ++ s)).
    rewrite find_match_cons.
    destruct (exec_here re p (a :: pre ++ s)); [discriminate|apply IH].
Qed.

Lemma find_match_here re p s i st' :
  exec_here re p s = Some st' -> find_match re p s i = Some (i, s, st').
Proof. intros H. destruct s; simpl; now rewrite H. Qed.

Lemma parseLine_fields_found line i from st' :
  find_match TaskParser.strictPattern None (chars line) 0
    = Some (i, from, st') ->
  parseLine_fields line =
  match caps st' !! "taskLine" with
  | Some taskLine =>
      Normal (Some (bool_decide (caps st' !! "complete" = Some "x"),
                    trim taskLine))
  | None => Throw TypeError
  end.
Proof.
  intros E. unfold parseLine_fields, string_match.
  cbn [global TaskParser.strictPattern]. rewrite E.
  cbn [groups_of groups]. now rewrite strict_has_named_group.
Qed.

(** X1. A line whose first marker starts a task is parsed to that task:
    when no dash or star comes before the marker, the result is
    [emptyTask] with complete set by the status token and name set to the
    body, from its first character to the first caret after it, trimmed. *)
Theorem parseLine_accepts_first_marker
  (emptyTask : gmap string value) (line : string)
  (pre : list ascii) (m : ascii) (tok ws : list ascii) (c : ascii)
  (w rest0 : list ascii) :
  task_shape (chars line) pre m tok ws c w rest0 ->
  forallb (fun a => negb (is_marker a)) pre = true ->
  TaskParser.parseLine emptyTask line =
  Normal (Some (<["name" := Str (str (trim_chars (c :: w)))]>
                  (<["complete" := Bool (bool_decide (tok = ["x"%char]))]>
                     emptyTask))).
Proof.
  intros (Hl & Hm & Htok & Hne & Hws & Hc & Hw & Hr & Hnl) Hpre.
  destruct (find_match_strict_skip pre
              (m :: " "%char :: "["%char :: tok ++ "]"%char :: ws
                 ++ c :: w ++ rest0) Hpre None 0) as (p' & Hskip).
  destruct (strict_exec_accepts p' m tok ws c w rest0
              Hm Htok Hne Hws Hc Hw Hr Hnl) as (st' & He & Htl & Hcpl).
  rewrite (find_match_here _ _ _ _ _ He), <- Hl in Hskip.
  apply (parseLine_at emptyTask line
           (Some (bool_decide (tok = ["x"%char]), str (trim_chars (c :: w))))).
  rewrite (parseLine_fields_found _ _ _ _ Hskip), Htl, Hcpl.
  rewrite status_token_complete by assumption.
  unfold trim. now rewrite chars_str.
Qed.

Lemma parseLine_accepts_first_marker_witness :
  TaskParser.parseLine ∅ "todo: * [x] Pay rent  ^r1" =
  Normal (Some (<["name" := Str "Pay rent"]> (<["complete" := Bool true]> ∅))).
Proof.
  apply (parseLine_accepts_first_marker ∅ "todo: * [x] Pay rent  ^r1"
           (chars "todo: ") "*" ["x"%char] [" "%char] "P"
           (chars "ay rent  ") (chars "^r1")).
  - unfold task_shape. split; [reflexivity|]. split; [now right|].
    split; [right; now right|]. split; [discriminate|].
    split; [reflexivity|]. split; [reflexivity|]. split; [reflexivity|].
    split; [right; eexists; reflexivity|reflexivity].
  - reflexivity.
Defined.

(** A line of the shape of a task line is accepted. *)
Lemma task_line_accepted (emptyTask : gmap string value) (line : string) :
  is_task_line (chars line) ->
  exists t, TaskParser.parseLine emptyTask line = Normal (Some t).
Proof.
  intros (pre & m & tok & ws & c & w & rest0 &
          Hl & Hm & Htok & Hne & Hws & Hc & Hw & Hr & Hnl).
  assert (Hfound :
            find_match TaskParser.strictPattern None (chars line) 0
            <> None).
  { rewrite Hl. apply find_match_complete. intros p.
    destruct (strict_exec_accepts p m tok ws c w rest0
                Hm Htok Hne Hws Hc Hw Hr Hnl) as (st' & -> & _).
    discriminate. }
  destruct (find_match _ None (chars line) 0) as [[[i from] st']|] eqn:E;
    [|congruence].
  pose proof (parseLine_fields_found _ _ _ _ E) as Hf.
  apply find_match_Some in E as (pre' & p' & _ & _ & He).
  cbn [fst snd] in He.
  apply strict_exec_shape in He
    as (m' & tok' & ws' & c' & b' & _ & _ & _ & _ & _ & _ & Htl & _).
  rewrite Htl in Hf.
  eexists. apply (parseLine_at emptyTask line _ Hf).
Qed.

(** X2. The lines [parseLine] accepts are exactly the lines that contain,
    anywhere, a marker, a space, a status token in brackets, white space
    and a body with nothing but an optional caret part up to the end of
    the line. *)
Theorem parseLine_accepts_iff (emptyTask : gmap string value) (line : string) :
  (exists t, TaskParser.parseLine emptyTask line = Normal (Some t)) <->
  is_task_line (chars line).
Proof.
  split; [|apply task_line_accepted].
  intros (t & H). rewrite parseLine_fields_eq in H.
  destruct (parseLine_fields line) as [[[cpl nm]|]|] eqn:E;
    try discriminate.
  apply parseLine_fields_shape in E
    as (pre & m & tok & ws & c & b & Hl & Hm & Htok & Hws & Hall & Hc &
        _ & _ & Hnl).
  destruct (span_caret b) as (w & rest0 & Hsp & -> & Hw & Hrest).
  rewrite Hsp in Hnl. cbn [snd] in Hnl.
  exists pre, m, tok, ws, c, w, rest0. unfold task_shape. auto 10.
Qed.

End LineParserComplete.

(* ===================================================================== *)
(** ** The task [parseLine] reads: the leftmost one of the line *)
(* ===================================================================== *)

Section LineParserMatch.
Import Js Regex RegexAux RegexFacts TaskParserTs TaskLine.

(** A match of the static pattern at the start of [l], as a task shape. *)
Lemma strict_exec_task_shape p l st' :
  exec_here TaskParser.strictPattern p l = Some st' ->
  exists m tok ws c w rest0,
    task_shape l [] m tok ws c w rest0 /\
    caps st' !! "taskLine" = Some (str (c :: w)) /\
    caps st' !! "complete" =
      match tok with [] => None | _ => Some (str tok) end.
Proof.
  intros H. apply strict_exec_shape in H
    as (m & tok & ws & c & b & -> & Hm & Htok & Hne & Hws & Hc & Htl &
        Hcpl & Hnl).
  destruct (span_caret b) as (w & rest0 & Hsp & -> & Hw & Hrest).
  rewrite Hsp in Htl, Hnl. cbn [fst snd] in Htl, Hnl.
  exists m, tok, ws, c, w, rest0. unfold task_shape. cbn [app].
  split; [|split; assumption]. auto 10.
Qed.

Lemma task_starts_exec l :
  task_starts l ->
  forall p, exec_here TaskParser.strictPattern p l <> None.
Proof.
  intros (m & tok & ws & c & w & rest0 &
          -> & Hm & Htok & Hne & Hws & Hc & Hw & Hr & Hnl) p.
  destruct (strict_exec_accepts p m tok ws c w rest0
              Hm Htok Hne Hws Hc Hw Hr Hnl) as (st' & He & _).
  cbn [app]. rewrite He. discriminate.
Qed.

(** The search finds the leftmost position at which the pattern matches. *)
Lemma find_match_first re p s i j from st' :
  find_match re p s i = Some (j, from, st') ->
  exists pre p',
    s = pre ++ from /\
    exec_here re p' from = Some st' /\
    forall k, k < length pre -> exists q, exec_here re q (drop k s) = None.
Proof.
  revert p i. induction s as [|a s IH]; intros p i.
  - change (find_match re p [] i)
      with (match exec_here re p [] with
            | Some st1 => Some (i, @nil ascii, st1)
            | None => None
            end).
    destruct (exec_here re p []) eqn:E; [|discriminate].
    intros [= <- <- <-]. exists [], p.
    split; [reflexivity|]. split; [assumption|]. simpl. intros k Hk. lia.
  - rewrite find_match_cons.
    destruct (exec_here re p (a :: s)) eqn:E.
    + intros [= <- <- <-]. exists [], p.
      split; [reflexivity|]. split; [assumption|]. simpl. intros k Hk. lia.
    + intros H. apply IH in H as (pre & p' & -> & He & Hbefore).
      exists (a :: pre), p'. split; [reflexivity|]. split; [assumption|].
      intros [|k] Hk.
      * exists p. exact E.
      * simpl in Hk. apply (Hbefore k). lia.
Qed.

(** The search skips the positions at which the pattern does not match. *)
Lemma find_match_skip_none re pre s :
  (forall k, k < length pre ->
     forall q, exec_here re q (drop k (pre ++ s)) = None) ->
  forall p i, exists p',
    find_match re p (pre ++ s) i = find_match re p' s (i + length pre).
Proof.
  induction pre as [|a pre IH]; intros Hnone p i.
  - exists p. simpl. now rewrite Nat.add_0_r.
  - destruct (IH (fun k Hk => Hnone (S k) ltac:(simpl; lia)) (Some a) (S i))
      as (p' & E).
    exists p'. change ((a :: pre) ++ s) with (a :: (pre ++ s)).
    rewrite find_match_cons.
    rewrite (Hnone 0 ltac:(simpl; lia) p : exec_here re p (a :: pre ++ s) = None).
    rewrite E. simpl length.
    now replace (i + S (length pre)) with (S i + length pre) by lia.
Qed.

Lemma parseLine_fields_null line :
  find_match TaskParser.strictPattern None (chars line) 0 = None ->
  parseLine_fields line = Normal None.
Proof.
  intros E. unfold parseLine_fields, string_match.
  cbn [global TaskParser.strictPattern]. now rewrite E.
Qed.

(** The leftmost task of a line is the one [parseLine] reads. *)
Lemma parseLine_leftmost emptyTask line pre m tok ws c w rest0 :
  task_shape (chars line) pre m tok ws c w rest0 ->
  no_task_before (chars line) (length pre) ->
  TaskParser.parseLine emptyTask line =
  Normal (Some (task_of emptyTask
                  (bool_decide (tok = ["x"%char]),
                   str (trim_chars (c :: w))))).
Proof.
  intros (Hl & Hm & Htok & Hne & Hws & Hc & Hw & Hr & Hnl) Hfirst.
  destruct (find_match_skip_none TaskParser.strictPattern pre
              (m :: " "%char :: "["%char :: tok ++ "]"%char :: ws
                 ++ c :: w ++ rest0)) with (p := @None ascii) (i := 0)
    as (p' & Hskip).
  { intros k Hk q. rewrite <- Hl.
    destruct (exec_here TaskParser.strictPattern q (drop k (chars line)))
      as [st1|] eqn:E; [|reflexivity].
    exfalso. apply (Hfirst k Hk).
    apply strict_exec_task_shape in E
      as (m1 & tok1 & ws1 & c1 & w1 & r1 & Hshape & _).
    exists m1, tok1, ws1, c1, w1, r1. exact Hshape. }
  destruct (strict_exec_accepts p' m tok ws c w rest0
              Hm Htok Hne Hws Hc Hw Hr Hnl) as (st' & He & Htl & Hcpl).
  rewrite (find_match_here _ _ _ _ _ He), <- Hl in Hskip.
  apply (parseLine_at emptyTask line
           (Some (bool_decide (tok = ["x"%char]), str (trim_chars (c :: w))))).
  rewrite (parseLine_fields_found _ _ _ _ Hskip), Htl, Hcpl.
  rewrite status_token_complete by assumption.
  unfold trim. now rewrite chars_str.
Qed.

(** A task [parseLine] reads is the leftmost task of the line. *)
Lemma parseLine_reads_leftmost emptyTask line t :
  TaskParser.parseLine emptyTask line = Normal (Some t) ->
  exists pre m tok ws c w rest0,
    task_shape (chars line) pre m tok ws c w rest0 /\
    no_task_before (chars line) (length pre) /\
    t = task_of emptyTask
          (bool_decide (tok = ["x"%char]), str (trim_chars (c :: w))).
Proof.
  intros H. rewrite parseLine_fields_eq in H.
  destruct (find_match TaskParser.strictPattern None (chars line) 0)
    as [[[j from] st']|] eqn:E.
  2: { rewrite (parseLine_fields_null _ E) in H. discriminate. }
  rewrite (parseLine_fields_found _ _ _ _ E) in H.
  apply find_match_first in E as (pre & p' & Hl & He & Hbefore).
  apply strict_exec_task_shape in He
    as (m & tok & ws & c & w & rest0 & Hshape & Htl & Hcpl).
  destruct Hshape as (Hfrom & Hm & Htok & Hne & Hws & Hc & Hw & Hr & Hnl).
  cbn [app] in Hfrom. rewrite Htl, Hcpl in H.
  rewrite status_token_complete in H by assumption.
  unfold trim in H. rewrite chars_str in H. injection H as <-.
  exists pre, m, tok, ws, c, w, rest0.
  split; [|split; [|reflexivity]].
  - unfold task_shape. rewrite Hl, Hfrom. auto 10.
  - intros k Hk Hstart. destruct (Hbefore k Hk) as (q & Hq).
    now apply (task_starts_exec _ Hstart q).
Qed.

(** C2, amended. The task [parseLine] reads from a line is the leftmost
    one: the line is some text in which no task starts, then a marker, a
    space, the brackets holding nothing, one white space character or a
    lower-case x, white space and the body; the task is complete exactly
    when the brackets of that leftmost task hold the x. Conversely the
    leftmost task of a line decides the result. So "- [x] done - [ ]" is
    complete, "- [ ] Buy milk" is an incomplete task and "- [x] Call Bob"
    a complete one; "* [X] Review PR" and "- [z] bad status" are not
    matched. *)
Theorem parseLine_status_token :
  forall emptyTask : gmap string value,
    (forall line t,
       TaskParser.parseLine emptyTask line = Normal (Some t) ->
       exists pre m tok ws c w rest0,
         task_shape (chars line) pre m tok ws c w rest0 /\
         no_task_before (chars line) (length pre) /\
         t !! "complete" = Some (Bool (bool_decide (tok = ["x"%char])))) /\
    (forall line pre m tok ws c w rest0,
       task_shape (chars line) pre m tok ws c w rest0 ->
       no_task_before (chars line) (length pre) ->
       exists t,
         TaskParser.parseLine emptyTask line = Normal (Some t) /\
         t !! "complete" = Some (Bool (bool_decide (tok = ["x"%char])))) /\
    TaskParser.parseLine emptyTask "- [ ] Buy milk" =
      Normal (Some (<["name" := Str "Buy milk"]>
                      (<["complete" := Bool false]> emptyTask))) /\
    TaskParser.parseLine emptyTask "- [x] Call Bob" =
      Normal (Some (<["name" := Str "Call Bob"]>
                      (<["complete" := Bool true]> emptyTask))) /\
    TaskParser.parseLine emptyTask "- [x] done - [ ]" =
      Normal (Some (<["name" := Str "done - [ ]"]>
                      (<["complete" := Bool true]> emptyTask))) /\
    TaskParser.parseLine emptyTask "* [X] Review PR" = Normal None /\
    TaskParser.parseLine emptyTask "- [z] bad status" = Normal None.
Proof.
  intros e. split; [|split; [|split; [|split; [|split; [|split]]]]].
  - intros line t H.
    apply parseLine_reads_leftmost in H
      as (pre & m & tok & ws & c & w & rest0 & Hshape & Hfirst & ->).
    exists pre, m, tok, ws, c, w, rest0.
    split; [assumption|]. split; [assumption|].
    unfold task_of. cbn [fst snd].
    rewrite lookup_insert_ne by discriminate. apply lookup_insert_eq.
  - intros line pre m tok ws c w rest0 Hshape Hfirst.
    eexists. split; [exact (parseLine_leftmost e _ _ _ _ _ _ _ _ Hshape Hfirst)|].
    unfold task_of. cbn [fst snd].
    rewrite lookup_insert_ne by discriminate. apply lookup_insert_eq.
  - apply (parseLine_at e _ (Some (false, "Buy milk"))).
    vm_compute. reflexivity.
  - apply (parseLine_at e _ (Some (true, "Call Bob"))).
    vm_compute. reflexivity.
  - apply (parseLine_at e _ (Some (true, "done - [ ]"))).
    vm_compute. reflexivity.
  - apply (parseLine_at e _ None). vm_compute. reflexivity.
  - apply (parseLine_at e _ None). vm_compute. reflexivity.
Qed.

Lemma parseLine_status_token_witness :
  exists t,
    TaskParser.parseLine ∅ "- [x] done - [ ]" = Normal (Some t) /\
    t !! "complete" = Some (Bool (bool_decide (["x"%char] = ["x"%char]))).
Proof.
  apply (proj1 (proj2 (parseLine_status_token ∅)) "- [x] done - [ ]"
           [] "-"%char ["x"%char] [" "%char] "d"%char
           (chars "one - [ ]") []).
  - unfold task_shape. split; [reflexivity|]. split; [now left|].
    split; [right; now right|]. split; [discriminate|].
    split; [reflexivity|]. split; [reflexivity|]. split; [reflexivity|].
    split; [now left|reflexivity].
  - intros i Hi. simpl in Hi. lia.
Defined.

(** C3, amended. The display text [parseLine] returns is the body of the
    leftmost task of the line, trimmed: the body starts at the first
    character after the status token that is not white space and ends
    before the first caret after that character, or at the end of the
    line. No identifier is read, the property id is the one of
    [emptyTask]. Conversely the leftmost task of a line decides the
    result. So "- [ ] see - [x] done" has the text "see - [x] done",
    "- [ ] Buy milk" gives complete false and the text "Buy milk", and
    "- [x] Call Bob ^a1" gives complete true and the text "Call Bob". *)
Theorem parseLine_display_text :
  forall emptyTask : gmap string value,
    (forall line t,
       TaskParser.parseLine emptyTask line = Normal (Some t) ->
       exists pre m tok ws c w rest0,
         task_shape (chars line) pre m tok ws c w rest0 /\
         no_task_before (chars line) (length pre) /\
         t !! "name" = Some (Str (str (trim_chars (c :: w)))) /\
         t !! "id" = emptyTask !! "id") /\
    (forall line pre m tok ws c w rest0,
       task_shape (chars line) pre m tok ws c w rest0 ->
       no_task_before (chars line) (length pre) ->
       exists t,
         TaskParser.parseLine emptyTask line = Normal (Some t) /\
         t !! "name" = Some (Str (str (trim_chars (c :: w)))) /\
         t !! "id" = emptyTask !! "id") /\
    TaskParser.parseLine emptyTask "- [ ] Buy milk" =
      Normal (Some (<["name" := Str "Buy milk"]>
                      (<["complete" := Bool false]> emptyTask))) /\
    TaskParser.parseLine emptyTask "- [x] Call Bob ^a1" =
      Normal (Some (<["name" := Str "Call Bob"]>
                      (<["complete" := Bool true]> emptyTask))) /\
    TaskParser.parseLine emptyTask "- [ ] see - [x] done" =
      Normal (Some (<["name" := Str "see - [x] done"]>
                      (<["complete" := Bool false]> emptyTask))).
Proof.
  intros e. split; [|split; [|split; [|split]]].
  - intros line t H.
    apply parseLine_reads_leftmost in H
      as (pre & m & tok & ws & c & w & rest0 & Hshape & Hfirst & ->).
    exists pre, m, tok, ws, c, w, rest0.
    split; [assumption|]. split; [assumption|].
    unfold task_of. cbn [fst snd]. split.
    + apply lookup_insert_eq.
    + now rewrite !lookup_insert_ne by discriminate.
  - intros line pre m tok ws c w rest0 Hshape Hfirst.
    eexists. split; [exact (parseLine_leftmost e _ _ _ _ _ _ _ _ Hshape Hfirst)|].
    unfold task_of. cbn [fst snd]. split.
    + apply lookup_insert_eq.
    + now rewrite !lookup_insert_ne by discriminate.
  - apply (parseLine_at e _ (Some (false, "Buy milk"))).
    vm_compute. reflexivity.
  - apply (parseLine_at e _ (Some (true, "Call Bob"))).
    vm_compute. reflexivity.
  - apply (parseLine_at e _ (Some (false, "see - [x] done"))).
    vm_compute. reflexivity.
Qed.

Lemma parseLine_display_text_witness :
  exists t,
    TaskParser.parseLine ∅ "- [ ] see - [x] done" = Normal (Some t) /\
    t !! "name"
      = Some (Str (str (trim_chars ("s"%char :: chars "ee - [x] done")))) /\
    t !! "id" = (∅ : gmap string value) !! "id".
Proof.
  apply (proj1 (proj2 (parseLine_display_text ∅)) "- [ ] see - [x] done"
           [] "-"%char [" "%char] [" "%char] "s"%char
           (chars "ee - [x] done") []).
  - unfold task_shape. split; [reflexivity|]. split; [now left|].
    split; [right; left; exists " "%char; split; reflexivity|].
    split; [discriminate|].
    split; [reflexivity|]. split; [reflexivity|]. split; [reflexivity|].
    split; [now left|reflexivity].
  - intros i Hi. simpl in Hi. lia.
Defined.

End LineParserMatch.

Section LineParserResult.
Import Js Regex RegexAux RegexFacts TaskParserTs.

Lemma skip_space_head l x k :
  skip_space l = x :: k -> is_space x = false.
Proof.
  induction l as [|y l IH]; simpl; [discriminate|].
  destruct (is_space y) eqn:Hy; [assumption|]. now intros [= <- _].
Qed.

Lemma trim_chars_last c w x :
  is_space c = false ->
  last (trim_chars (c :: w)) = Some x -> is_space x = false.
Proof.
  intros Hc. rewrite trim_chars_head by assumption.
  destruct (skip_space (rev w)) as [|y k] eqn:E; simpl rev.
  - now intros [= <-].
  - change (c :: rev k ++ [y]) with ((c :: rev k) ++ [y]).
    rewrite last_snoc. intros [= <-]. now apply skip_space_head in E.
Qed.

(** X3. The task [parseLine] returns is [emptyTask] with exactly the
    properties complete and name replaced: complete is a boolean, name is
    a string that is not empty and has no white space at either end, and
    every other property is the one of [emptyTask]. *)
Theorem parseLine_result_trimmed
  (emptyTask : gmap string value) (line : string) (t : gmap string value) :
  TaskParser.parseLine emptyTask line = Normal (Some t) ->
  exists (complete : bool) (c : ascii) (nm : list ascii),
    t = <["name" := Str (str (c :: nm))]>
          (<["complete" := Bool complete]> emptyTask) /\
    is_space c = false /\
    (forall x, last (c :: nm) = Some x -> is_space x = false) /\
    (forall k, k <> "name" -> k <> "complete" -> t !! k = emptyTask !! k).
Proof.
  intros H. rewrite parseLine_fields_eq in H.
  destruct (parseLine_fields line) as [[[cpl name]|]|] eqn:E;
    try discriminate.
  injection H as <-.
  apply parseLine_fields_shape in E
    as (pre & m & tok & ws & c & b & _ & _ & _ & _ & _ & Hc & -> & _ & _).
  pose proof (trim_chars_last c (fst (span (NoneOf "^") b))) as Hlast.
  rewrite trim_chars_head in * by assumption.
  exists cpl, c, (rev (skip_space (rev (fst (span (NoneOf "^") b))))).
  split; [reflexivity|]. split; [assumption|].
  split; [intros x; now apply Hlast|].
  intros k Hn Hcp. unfold task_of.
  now rewrite !lookup_insert_ne by congruence.
Qed.

Lemma parseLine_result_trimmed_witness :
  exists (complete : bool) (c : ascii) (nm : list ascii),
    <["name" := Str "Pay rent"]> (<["complete" := Bool true]> ∅)
    = <["name" := Str (str (c :: nm))]>
        (<["complete" := Bool complete]> (∅ : gmap string value)) /\
    is_space c = false /\
    (forall x, last (c :: nm) = Some x -> is_space x = false) /\
    (forall k, k <> "name" -> k <> "complete" ->
       (<["name" := Str "Pay rent"]> (<["complete" := Bool true]> ∅)
          : gmap string value) !! k = (∅ : gmap string value) !! k).
Proof.
  apply (parseLine_result_trimmed ∅ "* [x] Pay rent  ^r1").
  apply (parseLine_at ∅ _ (Some (true, "Pay rent"))).
  vm_compute. reflexivity.
Defined.

End LineParserResult.

(* ===================================================================== *)
(** ** Properties of the parsers of whole documents *)
(* ===================================================================== *)

Section DocumentParsers.
Import Js Regex RegexAux RegexFacts TaskParserTs TaskParserRest Lines.

Lemma parseLine_Normal emptyTask line :
  exists r, TaskParser.parseLine emptyTask line = Normal r.
Proof.
  destruct (parseLine_fields_total line) as (r & Hr).
  exists (task_of emptyTask <$> r). now apply parseLine_at.
Qed.

Lemma is_lf_LF c : is_lf c = true -> c = LF.
Proof.
  unfold is_lf, code, LF. intros H. apply Nat.eqb_eq in H.
  rewrite <- H. symmetry. apply ascii_nat_embedding.
Qed.

Lemma join_lf_cons line more :
  more <> [] -> join_lf (line :: more) = chars line ++ LF :: join_lf more.
Proof. destruct more; [congruence|reflexivity]. Qed.

(** The pieces of [split] with a piece already begun. *)
Lemma split_lines_spec piece s :
  exists first more,
    split_lines piece s = str (rev piece ++ first) :: more /\
    join_lf (split_lines piece s) = rev piece ++ crlf_to_lf s /\
    length (split_lines piece s) = S (count_lf s) /\
    forallb (fun c => negb (is_lf c)) first = true /\
    Forall (fun line => forallb (fun c => negb (is_lf c)) (chars line) = true)
      more.
Proof.
  remember (length s) as n eqn:Hn. revert piece s Hn.
  induction n as [n IH] using lt_wf_ind. intros piece s Hn.
  destruct s as [|c s'].
  - exists [], []. simpl. rewrite app_nil_r, chars_str. auto.
  - cbn [split_lines crlf_to_lf]. unfold count_lf. cbn [List.filter].
    destruct (is_lf c) eqn:Hc.
    + destruct (IH (length s') ltac:(subst n; simpl; lia) [] s' eq_refl)
        as (f & m & E & Hj & Hlen & Hf & Hm).
      exists [], (split_lines [] s'). rewrite app_nil_r.
      split; [reflexivity|]. split; [|split; [|split]].
      * rewrite join_lf_cons by (rewrite E; discriminate).
        rewrite Hj, chars_str. now rewrite (is_lf_LF c Hc).
      * simpl. now rewrite Hlen.
      * reflexivity.
      * rewrite E. constructor; [|assumption].
        now rewrite chars_str.
    + assert (Hstep : forall t,
                length t < n ->
                exists first more,
                  split_lines (c :: piece) t
                    = str (rev piece ++ c :: first) :: more /\
                  join_lf (split_lines (c :: piece) t)
                    = rev piece ++ c :: crlf_to_lf t /\
                  length (split_lines (c :: piece) t) = S (count_lf t) /\
                  forallb (fun c => negb (is_lf c)) (c :: first) = true /\
                  Forall (fun line =>
                            forallb (fun c => negb (is_lf c)) (chars line)
                            = true) more).
      { intros t Ht.
        destruct (IH (length t) Ht (c :: piece) t eq_refl)
          as (f & m & E & Hj & Hlen & Hf & Hm).
        exists f, m. simpl rev in *. rewrite <- !app_assoc in *.
        simpl in *. rewrite Hc. auto. }
      destruct s' as [|d s''].
      * destruct (Hstep [] ltac:(subst n; simpl; lia))
          as (f & m & E & Hj & Hlen & Hf & Hm).
        exists (c :: f), m. auto.
      * destruct (is_cr c && is_lf d) eqn:Hcd.
        -- apply andb_true_iff in Hcd as [_ Hd].
           destruct (IH (length s'') ltac:(subst n; simpl; lia) [] s''
                       eq_refl) as (f & m & E & Hj & Hlen & Hf & Hm).
           exists [], (split_lines [] s''). rewrite app_nil_r.
           split; [reflexivity|]. split; [|split; [|split]].
           ++ rewrite join_lf_cons by (rewrite E; discriminate).
              rewrite Hj, chars_str. now rewrite (is_lf_LF d Hd).
           ++ cbn [List.filter]. rewrite Hd. simpl. now rewrite Hlen.
           ++ reflexivity.
           ++ rewrite E. constructor; [|assumption]. now rewrite chars_str.
        -- destruct (Hstep (d :: s'') ltac:(subst n; simpl; lia))
             as (f & m & E & Hj & Hlen & Hf & Hm).
           exists (c :: f), m. auto.
Qed.

(** X4. [contents.split(/\r?\n/g)], as [parseLines] and
    [parseLinesToRecord] call it: the lines joined by line feeds are the
    contents with every carriage return before a line feed left out, there
    is one line more than there are line feeds, and no line holds a line
    feed. *)
Theorem split_lines_round_trip (contents : string) :
  join_lf (split_lines [] (chars contents)) = crlf_to_lf (chars contents) /\
  length (split_lines [] (chars contents)) = S (count_lf (chars contents)) /\
  Forall (fun line => forallb (fun c => negb (is_lf c)) (chars line) = true)
    (split_lines [] (chars contents)).
Proof.
  destruct (split_lines_spec [] (chars contents))
    as (f & m & E & Hj & Hlen & Hf & Hm).
  split; [exact Hj|]. split; [exact Hlen|].
  rewrite E. constructor; [|exact Hm]. simpl. now rewrite chars_str.
Qed.

Section WithEmptyTask.
Variable emptyTask : gmap string value.

Lemma map_lines_spec index lines :
  exists r,
    map_lines emptyTask index lines = Normal r /\
    (forall i t,
       In (i, t) r <->
       exists k line,
         i = index + k /\ lines !! k = Some line /\
         TaskParser.parseLine emptyTask line = Normal t) /\
    StronglySorted lt (map fst (List.filter not_null r)) /\
    Forall (fun x => index <= fst x) r.
Proof.
  revert index. induction lines as [|line more IH]; intros index.
  - exists []. split; [reflexivity|]. split; [|split; constructor].
    intros i t. split; [intros []|]. now intros (k & l & _ & H & _).
  - cbn [map_lines].
    destruct (parseLine_Normal emptyTask line) as (t0 & Ht0). rewrite Ht0.
    destruct (IH (S index)) as (r & -> & Hin & Hsorted & Hge).
    exists ((index, t0) :: r). split; [reflexivity|].
    split; [|split].
    + intros i t. cbn [In]. rewrite Hin. split.
      * intros [[= <- <-]|(k & l & -> & Hl & Ht)].
        -- exists 0, line. rewrite Nat.add_0_r. auto.
        -- exists (S k), l. split; [lia|]. auto.
      * intros ([|k] & l & -> & Hl & Ht).
        -- left. simpl in Hl. injection Hl as <-.
           rewrite Nat.add_0_r. congruence.
        -- right. exists k, l. split; [lia|]. auto.
    + assert (Hall : Forall (lt index) (map fst (List.filter not_null r))).
      { apply List.Forall_forall. intros x Hx.
        apply in_map_iff in Hx as ([i t] & <- & Hx).
        apply filter_In in Hx as [Hx _].
        rewrite List.Forall_forall in Hge.
        specialize (Hge (i, t) Hx). simpl in *. lia. }
      cbn [List.filter]. destruct (not_null (index, t0)); [|assumption].
      cbn [map fst]. now constructor.
    + constructor; [simpl; lia|].
      eapply Forall_impl; [exact Hge|]. simpl. intros; lia.
Qed.

Lemma reduce_lines_spec filePath lineNum lines rec :
  exists rec',
    reduce_lines emptyTask filePath lineNum lines rec = Normal rec' /\
    forall i,
      rec' !! i =
      match (if decide (lineNum <= i) then lines !! (i - lineNum) else None)
      with
      | Some line =>
          match TaskParser.parseLine emptyTask line with
          | Normal (Some task) =>
              Some (mkLocatedTask (delete "locations" task) [(filePath, i)])
          | _ => rec !! i
          end
      | None => rec !! i
      end.
Proof.
  revert lineNum rec. induction lines as [|line more IH]; intros lineNum rec.
  - exists rec. split; [reflexivity|]. intros i.
    destruct (decide (lineNum <= i)); reflexivity.
  - cbn [reduce_lines].
    destruct (parseLine_Normal emptyTask line) as (t0 & Ht0). rewrite Ht0.
    set (rec1 := match t0 with
                 | Some task =>
                     <[lineNum := mkLocatedTask (delete "locations" task)
                                    [(filePath, lineNum)]]> rec
                 | None => rec
                 end).
    destruct (IH (S lineNum) rec1) as (rec' & E & Hrec').
    exists rec'. split; [subst rec1; now destruct t0|].
    intros i. rewrite Hrec'.
    destruct (decide (S lineNum <= i)) as [Hlt|Hge].
    + destruct (decide (lineNum <= i)); [|lia].
      replace (i - lineNum) with (S (i - S lineNum)) by lia.
      cbn [lookup list_lookup].
      assert (Hne : rec1 !! i = rec !! i).
      { subst rec1. destruct t0; [|reflexivity].
        apply lookup_insert_ne. lia. }
      rewrite Hne. reflexivity.
    + destruct (decide (lineNum <= i)) as [Hle|Hnle].
      * assert (i = lineNum) as -> by lia.
        rewrite Nat.sub_diag. cbn [lookup list_lookup]. rewrite Ht0.
        subst rec1. destruct t0; [apply lookup_insert_eq|reflexivity].
      * subst rec1. destruct t0; [|reflexivity].
        apply lookup_insert_ne. lia.
Qed.

(** X5. [parseLines] never throws and returns, in the order of the lines
    and without a null, the pairs of a line number and the task
    [parseLine] reads from that line of the contents. *)
Theorem parseLines_spec (contents : string) :
  exists l,
    parseLines emptyTask contents = Normal l /\
    (forall i t,
       In (i, t) l <->
       exists line task,
         split_lines [] (chars contents) !! i = Some line /\
         TaskParser.parseLine emptyTask line = Normal (Some task) /\
         t = Some task) /\
    StronglySorted lt (map fst l).
Proof.
  unfold parseLines.
  destruct (map_lines_spec 0 (split_lines [] (chars contents)))
    as (r & -> & Hin & Hsorted & _).
  exists (List.filter not_null r). split; [reflexivity|].
  split; [|assumption].
  intros i t. rewrite filter_In, Hin. unfold not_null. cbn [snd]. split.
  - intros ((k & line & -> & Hl & Ht) & Hnn).
    destruct t as [task|]; [|discriminate]. exists line, task. auto.
  - intros (line & task & Hl & Ht & ->). split; [|reflexivity].
    exists i, line. auto.
Qed.

(** X6. [parseLinesToRecord] never throws, and its record has an entry at
    a line number exactly when [parseLine] reads a task from that line of
    the contents: the entry is that task with its only location set to the
    file path and the line number. *)
Theorem parseLinesToRecord_spec (filePath contents : string) :
  exists rec,
    parseLinesToRecord emptyTask filePath contents = Normal rec /\
    forall i located,
      rec !! i = Some located <->
      exists line task,
        split_lines [] (chars contents) !! i = Some line /\
        TaskParser.parseLine emptyTask line = Normal (Some task) /\
        located = mkLocatedTask (delete "locations" task) [(filePath, i)].
Proof.
  unfold parseLinesToRecord.
  destruct (reduce_lines_spec filePath 0
              (split_lines [] (chars contents)) ∅) as (rec & -> & Hrec).
  exists rec. split; [reflexivity|]. intros i located. rewrite Hrec.
  destruct (decide (0 <= i)); [|lia]. rewrite Nat.sub_0_r.
  destruct (split_lines [] (chars contents) !! i) as [line|].
  - destruct (TaskParser.parseLine emptyTask line) as [[task|]|] eqn:E.
    + split.
      * intros [= <-]. exists line, task. auto.
      * intros (l' & t' & [= <-] & Ht & ->). congruence.
    + rewrite lookup_empty. split; [discriminate|].
      intros (l' & t' & [= <-] & Ht & _). congruence.
    + rewrite lookup_empty. split; [discriminate|].
      intros (l' & t' & [= <-] & Ht & _). congruence.
  - rewrite lookup_empty. split; [discriminate|].
    intros (l' & t' & Hl & _). discriminate.
Qed.

End WithEmptyTask.

End DocumentParsers.

(* ===================================================================== *)
(** ** More on [parseFileContents] *)
(* ===================================================================== *)

Section FileContentsOutcome.
Import Js Regex RegexAux RegexFacts TaskParserTs CacheTasks.

Lemma forallb_rev {A} (f : A -> bool) (l : list A) :
  forallb f (rev l) = forallb f l.
Proof.
  induction l as [|x l IH]; [reflexivity|].
  simpl. rewrite forallb_app, IH. simpl. rewrite andb_true_r.
  apply andb_comm.
Qed.

Lemma split_keep_spec piece s :
  forallb (fun c => negb (is_line_terminator c)) piece = true ->
  mjoin (chars <$> split_keep piece s) = rev piece ++ s /\
  length (split_keep piece s) = 2 * count_terminators s + 1 /\
  (forall k x, split_keep piece s !! (2 * k + 1) = Some x ->
     exists c, x = str [c] /\ is_line_terminator c = true) /\
  (forall k x, split_keep piece s !! (2 * k) = Some x ->
     no_line_terminator (chars x) = true).
Proof.
  revert piece. induction s as [|c s IH]; intros piece Hp.
  - cbn [split_keep]. split; [|split; [reflexivity|split]].
    + simpl. now rewrite !app_nil_r, chars_str.
    + intros [|k] x H; simpl in H; discriminate.
    + intros [|k] x H; simpl in H; [|discriminate].
      injection H as <-. rewrite chars_str. unfold no_line_terminator.
      rewrite forallb_rev. exact Hp.
  - cbn [split_keep]. unfold count_terminators. cbn [List.filter].
    destruct (is_line_terminator c) eqn:Hc.
    + destruct (IH [] eq_refl) as (Hj & Hlen & Hodd & Heven).
      split; [|split; [|split]].
      * change (chars (str (rev piece)) ++ chars (str [c])
                  ++ mjoin (chars <$> split_keep [] s)
                = rev piece ++ c :: s).
        rewrite Hj, !chars_str. reflexivity.
      * cbn [length]. rewrite Hlen. unfold count_terminators. lia.
      * intros [|k] x H.
        -- simpl in H. injection H as <-. eauto.
        -- replace (2 * S k + 1) with (S (S (2 * k + 1))) in H by lia.
           exact (Hodd k x H).
      * intros [|k] x H.
        -- simpl in H. injection H as <-. rewrite chars_str.
           unfold no_line_terminator. rewrite forallb_rev. exact Hp.
        -- replace (2 * S k) with (S (S (2 * k))) in H by lia.
           exact (Heven k x H).
    + destruct (IH (c :: piece)) as (Hj & Hlen & Hodd & Heven).
      { simpl. now rewrite Hc, Hp. }
      split; [|split; [|split]]; try assumption.
      rewrite Hj. simpl. now rewrite <- app_assoc.
Qed.

(** X7. [contents.split(/(\r|\n)/g)], as [parseFileContents] calls it:
    the elements put together are the contents; every line terminator is
    an element of its own, at an odd index; the elements at even indices
    hold no line terminator. So for a document with n terminators the
    array has 2n+1 elements, and line k of the document is element 2k. *)
Theorem split_keep_interleaves (contents : string) :
  mjoin (chars <$> split_keep [] (chars contents)) = chars contents /\
  length (split_keep [] (chars contents))
    = 2 * count_terminators (chars contents) + 1 /\
  (forall k x, split_keep [] (chars contents) !! (2 * k + 1) = Some x ->
     exists c, x = str [c] /\ is_line_terminator c = true) /\
  (forall k x, split_keep [] (chars contents) !! (2 * k) = Some x ->
     no_line_terminator (chars x) = true).
Proof. exact (split_keep_spec [] (chars contents) eq_refl). Qed.

Section Loop.
Variable filePath : string.
Variable lines : list string.

Lemma strictPattern_match_cases line :
  string_match line strictPattern = MatchNull \/
  exists l, string_match line strictPattern = MatchList l.
Proof.
  unfold string_match. cbn [global strictPattern].
  destruct (match_all _ _ _ _); eauto.
Qed.

Lemma parseCacheTasks_passed_over before more ret :
  Forall (passed_over lines) before ->
  parseCacheTasks filePath lines (before ++ more) ret =
  parseCacheTasks filePath lines more ret.
Proof.
  induction 1 as [|li before (line & Hl & Hm) _ IH]; [reflexivity|].
  cbn [app parseCacheTasks]. rewrite Hl, Hm.
  pose proof (lookup_lt_Some _ _ _ Hl) as Hlt.
  destruct (Nat.leb_spec (length lines) (position_start_line li)); [lia|].
  exact IH.
Qed.

Lemma parseCacheTasks_stops li more ret :
  ~ passed_over lines li ->
  parseCacheTasks filePath lines (li :: more) ret =
  if Nat.leb (length lines) (position_start_line li)
  then Throw (Error "Cache line number cannot be longer than file lines.")
  else Throw TypeError.
Proof.
  intros Hno. cbn [parseCacheTasks].
  destruct (Nat.leb _ _); [reflexivity|].
  destruct (lines !! _) as [line|] eqn:Hl; [|reflexivity].
  destruct (strictPattern_match_cases line) as [Hm|(l & Hm)].
  - exfalso. apply Hno. exists line. auto.
  - now rewrite Hm.
Qed.

Lemma passed_over_dec li : passed_over lines li \/ ~ passed_over lines li.
Proof.
  unfold passed_over.
  destruct (lines !! position_start_line li) as [line|] eqn:Hl.
  - destruct (strictPattern_match_cases line) as [Hm|(l & Hm)].
    + left. eauto.
    + right. intros (line' & [= <-] & H). congruence.
  - right. now intros (line' & H & _).
Qed.

(** The loop either passes over every item, or stops at the first item it
    does not pass over. *)
Lemma parseCacheTasks_first_stop cts ret :
  (Forall (passed_over lines) cts /\
   parseCacheTasks filePath lines cts ret = Normal ret) \/
  (exists before li after,
     cts = before ++ li :: after /\
     Forall (passed_over lines) before /\ ~ passed_over lines li /\
     parseCacheTasks filePath lines cts ret =
     if Nat.leb (length lines) (position_start_line li)
     then Throw (Error "Cache line number cannot be longer than file lines.")
     else Throw TypeError).
Proof.
  induction cts as [|li cts IH].
  - left. split; [constructor|reflexivity].
  - destruct (passed_over_dec li) as [Hli|Hli].
    + assert (Hskip : parseCacheTasks filePath lines (li :: cts) ret
                      = parseCacheTasks filePath lines cts ret).
      { apply (parseCacheTasks_passed_over [li] cts ret).
        constructor; [assumption|constructor]. }
      rewrite !Hskip.
      destruct IH as [[Hall E]|(before & li' & after & -> & Hb & Hn & E)].
      * left. split; [now constructor|assumption].
      * right. exists (li :: before), li', after.
        split; [reflexivity|]. split; [now constructor|]. auto.
    + right. exists [], li, cts. split; [reflexivity|].
      split; [constructor|]. split; [assumption|].
      now apply parseCacheTasks_stops.
Qed.
End Loop.

(** X8. The outcome of [parseFileContents], for a cache that has list
    items. The call returns, and then the empty record, exactly when every
    cached task item names an element of the split contents that the
    pattern does not match. It throws the range error exactly when the
    first item that is not passed over has a line number that is at least
    the number of elements; it throws a TypeError exactly when that item
    names an element the pattern matches. *)
Theorem parseFileContents_outcome
  (filePath contents : string) (items : list ListItemCache) :
  let lines := split_keep [] (chars contents) in
  let result :=
    parseFileContents filePath contents (mkCachedMetadata (Some items)) in
  (result = Normal ∅ <-> Forall (passed_over lines) (cacheTasks items)) /\
  (result = Throw (Error "Cache line number cannot be longer than file lines.")
   <-> exists before li after,
         cacheTasks items = before ++ li :: after /\
         Forall (passed_over lines) before /\
         length lines <= position_start_line li) /\
  (result = Throw TypeError
   <-> exists before li after line,
         cacheTasks items = before ++ li :: after /\
         Forall (passed_over lines) before /\
         lines !! position_start_line li = Some line /\
         string_match line strictPattern <> MatchNull).
Proof.
  intros lines result. subst result. unfold parseFileContents.
  cbn [listItems]. fold (cacheTasks items). fold lines.
  destruct (parseCacheTasks_first_stop filePath lines (cacheTasks items) ∅)
    as [[Hall E]|(before & li & after & Hcts & Hb & Hn & E)];
    rewrite E; clear E.
  - split; [tauto|]. split.
    + split; [discriminate|].
      intros (b & li & a & Hcts & _ & Hlen). exfalso.
      rewrite Hcts in Hall. apply Forall_app in Hall as [_ Hall].
      apply Forall_cons in Hall as [(line & Hl & _) _].
      apply lookup_lt_Some in Hl. lia.
    + split; [discriminate|].
      intros (b & li & a & line & Hcts & _ & Hl & Hm). exfalso.
      rewrite Hcts in Hall. apply Forall_app in Hall as [_ Hall].
      apply Forall_cons in Hall as [(line' & Hl' & Hm') _]. congruence.
  - split; [|split].
    + split.
      * destruct (Nat.leb _ _); discriminate.
      * intros Hall. exfalso. rewrite Hcts in Hall.
        apply Forall_app in Hall as [_ Hall].
        now apply Forall_cons in Hall as [Hli _].
    + destruct (Nat.leb_spec (length lines) (position_start_line li))
        as [Hle|Hlt].
      * split; [|reflexivity]. intros _. eauto 10.
      * split; [discriminate|].
        intros (b & li' & a & Hcts' & Hb' & Hlen). exfalso.
        assert (Hsame : b = before /\ li' = li).
        { clear - Hcts Hcts' Hb Hb' Hn Hlen.
          rewrite Hcts in Hcts'. clear Hcts.
          revert b Hcts' Hb'.
          induction before as [|x before IH]; intros b Hcts' Hb'.
          - destruct b as [|y b]; simpl in Hcts'.
            + injection Hcts' as -> _. auto.
            + injection Hcts' as -> _. exfalso.
              now apply Forall_cons in Hb' as [Hy _].
          - destruct b as [|y b]; simpl in Hcts'.
            + injection Hcts' as <- _. exfalso.
              apply Forall_cons in Hb as [(line & Hl & _) _].
              apply lookup_lt_Some in Hl. lia.
            + injection Hcts' as <- Hcts'.
              apply Forall_cons in Hb as [_ Hb].
              apply Forall_cons in Hb' as [_ Hb'].
              destruct (IH Hb b Hcts' Hb') as [-> ->]. auto. }
        destruct Hsame as [_ ->]. lia.
    + destruct (Nat.leb_spec (length lines) (position_start_line li))
        as [Hle|Hlt].
      * split; [discriminate|].
        intros (b & li' & a & line & Hcts' & Hb' & Hl & Hm). exfalso.
        assert (Hsame : li' = li).
        { clear - Hcts Hcts' Hb Hb' Hn Hl Hm.
          rewrite Hcts in Hcts'. clear Hcts.
          revert b Hcts' Hb'.
          induction before as [|x before IH]; intros b Hcts' Hb'.
          - destruct b as [|y b]; simpl in Hcts'.
            + now injection Hcts' as -> _.
            + injection Hcts' as -> _. exfalso.
              now apply Forall_cons in Hb' as [Hy _].
          - destruct b as [|y b]; simpl in Hcts'.
            + injection Hcts' as <- _. exfalso.
              apply Forall_cons in Hb as [(line' & Hl' & Hm') _].
              congruence.
            + injection Hcts' as <- Hcts'.
              apply Forall_cons in Hb as [_ Hb].
              apply Forall_cons in Hb' as [_ Hb'].
              exact (IH Hb b Hcts' Hb'). }
        subst li'. apply lookup_lt_Some in Hl. lia.
      * split; [|reflexivity]. intros _.
        destruct (lookup_lt_is_Some_2 lines (position_start_line li) Hlt)
          as (line & Hl).
        exists before, li, after, line.
        split; [assumption|]. split; [assumption|]. split; [assumption|].
        intros Hm. apply Hn. exists line. auto.
Qed.

End FileContentsOutcome.

(* ===================================================================== *)
(** ** The module pattern, which [parseFileContents] uses *)
(* ===================================================================== *)

Section ModulePattern.
Import Js Regex RegexAux RegexFacts TaskParserTs ModuleLine.

Lemma reach_Seq ml a b s t u :
  reach ml a s t -> reach ml b t u -> reach ml (Seq a b) s u.
Proof.
  intros Ha Hb p cp. destruct (Ha p cp) as (p1 & cp1 & H1).
  destruct (Hb p1 cp1) as (p2 & cp2 & H2).
  exists p2, cp2. apply in_run_Seq. eauto.
Qed.

Lemma reach_Chr ml cs c s :
  cset_mem cs c = true -> reach ml (Chr cs) (c :: s) s.
Proof.
  intros Hc p cp. exists (Some c), cp. apply in_run_Chr.
  exists c, s. auto.
Qed.

Lemma reach_lit ml c s : reach ml (lit c) (c :: s) s.
Proof. apply reach_Chr. apply Ascii.eqb_refl. Qed.

Lemma reach_Alt_l ml a b s t : reach ml a s t -> reach ml (Alt a b) s t.
Proof.
  intros H p cp. destruct (H p cp) as (p' & cp' & H').
  exists p', cp'. apply in_run_Alt. now left.
Qed.

Lemma reach_Alt_r ml a b s t : reach ml b s t -> reach ml (Alt a b) s t.
Proof.
  intros H p cp. destruct (H p cp) as (p' & cp' & H').
  exists p', cp'. apply in_run_Alt. now right.
Qed.

Lemma reach_Opt_skip ml a s : reach ml (Opt a) s s.
Proof.
  intros p cp. exists p, cp. cbn [run]. apply in_app_iff. right. now left.
Qed.

Lemma reach_Opt_take ml a s t :
  reach ml a s t -> length t < length s -> reach ml (Opt a) s t.
Proof.
  intros H Hlt p cp. destruct (H p cp) as (p' & cp' & H').
  exists p', cp'. cbn [run]. apply in_app_iff. left.
  apply filter_In. split; [assumption|]. cbn [rest].
  now apply Nat.ltb_lt.
Qed.

Lemma reach_Group ml name a s t :
  reach ml a s t -> reach ml (Group name a) s t.
Proof.
  intros H p cp. destruct (H p cp) as (p' & cp' & H').
  eexists p', _. apply in_run_Group.
  exists (MState p' t cp'). split; [assumption|reflexivity].
Qed.

Lemma in_chr_star_states_prefix cs w t :
  forallb (cset_mem cs) w = true ->
  forall p cp, exists p', In (MState p' t cp) (chr_star_states cs p (w ++ t) cp).
Proof.
  induction w as [|a w IH]; intros Hw p cp.
  - exists p. destruct t as [|c t]; simpl; [now left|].
    destruct (cset_mem cs c); [apply in_app_iff; right|]; now left.
  - simpl in Hw. apply andb_true_iff in Hw as [Ha Hw].
    destruct (IH Hw (Some a) cp) as (p' & H). exists p'.
    simpl. rewrite Ha. apply in_app_iff. now left.
Qed.

Lemma reach_Star_Chr ml cs w t :
  forallb (cset_mem cs) w = true -> reach ml (Star (Chr cs)) (w ++ t) t.
Proof.
  intros Hw p cp. rewrite run_Star_Chr. cbn [prev rest caps].
  destruct (in_chr_star_states_prefix cs w t Hw p cp) as (p' & H).
  eauto.
Qed.

Lemma reach_Plus_Chr ml cs c w t :
  cset_mem cs c = true -> forallb (cset_mem cs) w = true ->
  reach ml (Plus (Chr cs)) (c :: w ++ t) t.
Proof.
  intros Hc Hw. unfold Plus. eapply reach_Seq.
  - now apply reach_Chr.
  - now apply reach_Star_Chr.
Qed.

Lemma reach_Eol ml : reach ml Eol [] [].
Proof. intros p cp. exists p, cp. now left. Qed.

Lemma run_Bol_start ml r s cp :
  run ml (Seq Bol r) (MState None s cp) = run ml r (MState None s cp).
Proof.
  rewrite run_Seq.
  change (run ml Bol (MState None s cp)) with [MState None s cp].
  cbn [flat_map]. apply app_nil_r.
Qed.

Lemma run_Bol_inside r c s cp :
  is_line_terminator c = false ->
  run true (Seq Bol r) (MState (Some c) s cp) = [].
Proof.
  intros Hc. rewrite run_Seq.
  change (run true Bol (MState (Some c) s cp))
    with (if true && is_line_terminator c
          then [MState (Some c) s cp] else []).
  now rewrite Hc.
Qed.

(** A task line of the module pattern is matched from its start. *)
Lemma module_shape_matched l ws0 m tok ws c w idp :
  module_task_shape l ws0 m tok ws c w idp ->
  exec_here strictPattern None l <> None.
Proof.
  intros (-> & Hws0 & Hm & Htok & Hne & Hws & Hc & Hw & Hid).
  destruct ws as [|w0 ws]; [congruence|]. simpl in Hws.
  apply andb_true_iff in Hws as [Hw0 Hws].
  unfold exec_here. cbn [pattern multiline strictPattern].
  rewrite run_Bol_start.
  match goal with
  | |- head (run true ?r (MState None ?s ∅)) <> None =>
      assert (Hreach : reach true r s [])
  end.
  { pose (s6 := c :: w ++ idp). pose (s5 := (w0 :: ws) ++ s6).
    pose (s4 := "]"%char :: s5). pose (s3 := tok ++ s4).
    pose (s2 := "["%char :: s3). pose (s1 := " "%char :: s2).
    apply (reach_Seq true _ _ _ (m :: s1)); [now apply reach_Star_Chr|].
    apply (reach_Seq true _ _ _ s1).
    { destruct Hm as [-> | ->];
        [apply reach_Alt_l|apply reach_Alt_r]; apply reach_lit. }
    apply (reach_Seq true _ _ _ s2); [apply reach_lit|].
    apply (reach_Seq true _ _ _ s3); [apply reach_lit|].
    apply (reach_Seq true _ _ _ s4).
    { subst s3. destruct Htok as [->|[(t & -> & Ht)| ->]].
      - apply reach_Opt_skip.
      - apply reach_Opt_take; [|simpl; lia].
        apply reach_Group, reach_Alt_l. now apply reach_Chr.
      - apply reach_Opt_take; [|simpl; lia].
        apply reach_Group, reach_Alt_r, reach_lit. }
    apply (reach_Seq true _ _ _ s5); [apply reach_lit|].
    apply (reach_Seq true _ _ _ s6).
    { apply (reach_Plus_Chr true Space w0 ws); assumption. }
    apply (reach_Seq true _ _ _ idp).
    { apply reach_Group. apply (reach_Seq true _ _ _ (w ++ idp)).
      - apply reach_Chr. cbn [cset_mem]. now rewrite Hc.
      - apply (reach_Star_Chr true (NoneOf "^") w idp). exact Hw. }
    apply (reach_Seq true _ _ _ []); [|apply reach_Eol].
    destruct Hid as [->|(id & Hne' & Hal & ->)].
    - apply reach_Opt_skip.
    - apply reach_Opt_take; [|simpl; lia].
      apply (reach_Seq true _ _ _ ("^"%char :: id)); [apply reach_lit|].
      apply (reach_Seq true _ _ _ id); [apply reach_lit|].
      apply reach_Group. destruct id as [|a id]; [congruence|].
      simpl in Hal. apply andb_true_iff in Hal as [Ha Hal].
      rewrite <- (app_nil_r id).
      now apply (reach_Plus_Chr true AlphaNum a id []). }
  destruct (Hreach None ∅) as (p' & cp' & Hin).
  destruct (run true _ _); [destruct Hin|discriminate].
Qed.

Lemma rest_Chr ml cs st st' :
  In st' (run ml (Chr cs) st) ->
  exists c, rest st = c :: rest st' /\ cset_mem cs c = true.
Proof.
  intros H. apply in_run_Chr in H as (c & s & E & Hc & ->). eauto.
Qed.

Lemma rest_lit ml c st st' :
  In st' (run ml (lit c) st) -> rest st = c :: rest st'.
Proof. intros H. now apply in_run_lit in H as (s & E & ->). Qed.

Lemma rest_Star_Chr ml cs st st' :
  In st' (run ml (Star (Chr cs)) st) ->
  exists w, rest st = w ++ rest st' /\ forallb (cset_mem cs) w = true.
Proof.
  rewrite run_Star_Chr. intros H.
  apply in_chr_star_states in H as (w & E & Hw & _). eauto.
Qed.

Lemma rest_Plus_Chr ml cs st st' :
  In st' (run ml (Plus (Chr cs)) st) ->
  exists c w, rest st = c :: w ++ rest st' /\
              forallb (cset_mem cs) (c :: w) = true.
Proof.
  unfold Plus. rewrite in_run_Seq. intros (z & Hz & H).
  apply rest_Chr in Hz as (c & E & Hc).
  apply rest_Star_Chr in H as (w & E' & Hw).
  exists c, w. rewrite E, E'. simpl. now rewrite Hc, Hw.
Qed.

Lemma rest_Group ml name a st st' :
  In st' (run ml (Group name a) st) ->
  exists z, In z (run ml a st) /\ rest st' = rest z.
Proof.
  intros H. apply in_run_Group in H as (z & Hz & ->). eauto.
Qed.

(** What any match of the module pattern has read. *)
Lemma module_run_shape st st' :
  In st' (run true (pattern strictPattern) st) ->
  exists ws0 m tok ws c w idp,
    rest st = ws0 ++ m :: " "%char :: "["%char :: tok ++ "]"%char :: ws
                ++ c :: w ++ idp ++ rest st' /\
    forallb is_space ws0 = true /\
    (m = "-"%char \/ m = "*"%char) /\
    status_token tok /\
    ws <> [] /\ forallb is_space ws = true /\
    is_space c = false /\
    forallb (fun a => negb (Ascii.eqb "^" a)) w = true /\
    (idp = [] \/
     exists id, id <> [] /\ forallb (cset_mem AlphaNum) id = true /\
                idp = " "%char :: "^"%char :: id) /\
    at_line_end true st' = true.
Proof.
  cbn [pattern strictPattern]. intros H.
  apply in_run_Seq in H as (x0 & H0 & H).
  assert (x0 = st) as ->.
  { cbn [run] in H0. destruct (at_line_start true st); [|destruct H0].
    now destruct H0 as [<-|[]]. }
  apply in_run_Seq in H as (x1 & H1 & H).
  apply rest_Star_Chr in H1 as (ws0 & E0 & Hws0).
  apply in_run_Seq in H as (x2 & H2 & H).
  assert (Hm : exists m, rest x1 = m :: rest x2 /\
                         (m = "-"%char \/ m = "*"%char)).
  { apply in_run_Alt in H2 as [H2|H2]; apply rest_lit in H2; eauto. }
  destruct Hm as (m & E1 & Hm).
  apply in_run_Seq in H as (x3 & H3 & H). apply rest_lit in H3.
  apply in_run_Seq in H as (x4 & H4 & H). apply rest_lit in H4.
  apply in_run_Seq in H as (x5 & H5 & H).
  assert (Htok : exists tok, rest x4 = tok ++ rest x5 /\ status_token tok).
  { apply in_run_Opt in H5 as [H5| ->].
    - apply rest_Group in H5 as (z & Hz & ->).
      apply in_run_Alt in Hz as [Hz|Hz].
      + apply rest_Chr in Hz as (t & E & Ht). exists [t].
        split; [exact E|]. right; left. eauto.
      + apply rest_lit in Hz. exists ["x"%char].
        split; [exact Hz|]. right; now right.
    - exists []. split; [reflexivity|now left]. }
  destruct Htok as (tok & E4 & Htok).
  apply in_run_Seq in H as (x6 & H6 & H). apply rest_lit in H6.
  apply in_run_Seq in H as (x7 & H7 & H).
  apply rest_Plus_Chr in H7 as (w0 & ws & E6 & Hws).
  apply in_run_Seq in H as (x8 & H8 & H).
  apply rest_Group in H8 as (z & Hz & E8).
  apply in_run_Seq in Hz as (y & Hy & Hz).
  apply rest_Chr in Hy as (c & E7 & Hc).
  apply rest_Star_Chr in Hz as (w & Ey & Hw).
  apply in_run_Seq in H as (x9 & H9 & H).
  assert (Hid : exists idp,
            rest x8 = idp ++ rest x9 /\
            (idp = [] \/
             exists id, id <> [] /\ forallb (cset_mem AlphaNum) id = true /\
                        idp = " "%char :: "^"%char :: id)).
  { apply in_run_Opt in H9 as [H9| ->].
    - apply in_run_Seq in H9 as (a1 & Ha1 & H9). apply rest_lit in Ha1.
      apply in_run_Seq in H9 as (a2 & Ha2 & H9). apply rest_lit in Ha2.
      apply rest_Group in H9 as (a3 & Ha3 & ->).
      apply rest_Plus_Chr in Ha3 as (i0 & id & E & Hal).
      exists (" "%char :: "^"%char :: i0 :: id). split.
      + rewrite Ha1, Ha2, E. reflexivity.
      + right. exists (i0 :: id). split; [discriminate|]. auto.
    - exists []. split; [reflexivity|now left]. }
  destruct Hid as (idp & E9 & Hid).
  assert (st' = x9 /\ at_line_end true x9 = true) as [-> Hend].
  { cbn [run] in H. destruct (at_line_end true x9); [|destruct H].
    now destruct H as [<-|[]]. }
  exists ws0, m, tok, (w0 :: ws), c, w, idp.
  split.
  { rewrite E0, E1, H3, H4, E4, H6, E6, E7, Ey, <- E8, E9.
    reflexivity. }
  split; [assumption|]. split; [assumption|]. split; [assumption|].
  split; [discriminate|]. split; [assumption|].
  split; [now apply negb_true_iff in Hc|].
  split; [assumption|]. split; assumption.
Qed.

(** Inside a text without line terminators no line starts. *)
Lemma find_match_module_inside c s i :
  is_line_terminator c = false ->
  no_line_terminator s = true ->
  find_match strictPattern (Some c) s i = None.
Proof.
  revert c i. induction s as [|d s IH]; intros c i Hc Hs.
  - simpl. unfold exec_here. cbn [pattern multiline strictPattern].
    now rewrite run_Bol_inside.
  - rewrite find_match_cons. unfold exec_here.
    cbn [pattern multiline strictPattern].
    rewrite run_Bol_inside by assumption. cbn [head].
    simpl in Hs. apply andb_true_iff in Hs as [Hd Hs].
    apply IH; [now apply negb_true_iff in Hd|assumption].
Qed.

Lemma find_match_module_start l :
  no_line_terminator l = true ->
  find_match strictPattern None l 0 = None <->
  exec_here strictPattern None l = None.
Proof.
  intros Hl. destruct l as [|c l].
  - change (find_match strictPattern None [] 0)
      with (match exec_here strictPattern None [] with
            | Some st' => Some (0, @nil ascii, st')
            | None => None
            end).
    destruct (exec_here strictPattern None []); split; congruence.
  - rewrite find_match_cons.
    destruct (exec_here strictPattern None (c :: l)).
    + split; discriminate.
    + simpl in Hl. apply andb_true_iff in Hl as [Hc Hl].
      split; [reflexivity|]. intros _.
      apply find_match_module_inside;
        [now apply negb_true_iff in Hc|assumption].
Qed.

Lemma string_match_module_null line :
  string_match line strictPattern = MatchNull <->
  find_match strictPattern None (chars line) 0 = None.
Proof.
  unfold string_match. cbn [global strictPattern match_all].
  destruct (find_match _ None (chars line) 0) as [[[i from] st']|].
  - split; discriminate.
  - split; reflexivity.
Qed.

(** A match of the module pattern in a text without line terminators
    shows the shape of the text. *)
Lemma module_match_shape (line : string) :
  no_line_terminator (chars line) = true ->
  string_match line strictPattern <> MatchNull ->
  is_module_task_line (chars line).
Proof.
  intros Hnl. rewrite string_match_module_null.
  rewrite (find_match_module_start _ Hnl).
  intros H. unfold exec_here in H.
  destruct (run true (pattern strictPattern) (MState None (chars line) ∅))
    as [|st' more] eqn:E;
    [now cbn [multiline strictPattern] in H; rewrite E in H|].
  assert (Hin : In st' (run true (pattern strictPattern)
                          (MState None (chars line) ∅)))
    by (rewrite E; now left).
  apply module_run_shape in Hin
    as (ws0 & m & tok & ws & c & w & idp & Hl & Hws0 & Hm & Htok & Hne &
        Hws & Hc & Hw & Hid & Hend).
  cbn [rest] in Hl.
  assert (Hrest : rest st' = []).
  { unfold at_line_end in Hend.
    destruct (rest st') as [|d t]; [reflexivity|]. exfalso.
    rewrite Hl in Hnl. unfold no_line_terminator in Hnl.
    repeat (rewrite forallb_app in Hnl || cbn [forallb] in Hnl).
    rewrite !andb_true_iff in Hnl. simpl in Hend.
    destruct Hnl as (_ & _ & _ & _ & _ & _ & _ & _ & _ & _ & Hd & _).
    rewrite Hend in Hd. discriminate. }
  rewrite Hrest, app_nil_r in Hl.
  exists ws0, m, tok, ws, c, w, idp. unfold module_task_shape. auto 10.
Qed.

(** X9. The pattern of [parseFileContents] on a text without line
    terminators, as the elements at even indices of the split contents
    are: it matches exactly the lines made, from their start, of optional
    white space, a marker, a space, a status token in brackets, white
    space, a body without a caret after its first character, and an
    optional identifier part (a space, a caret, letters or digits) up to the
    end of the line. *)
Theorem module_pattern_matches_iff (line : string) :
  no_line_terminator (chars line) = true ->
  (string_match line strictPattern <> MatchNull <->
   is_module_task_line (chars line)).
Proof.
  intros Hnl. split; [now apply module_match_shape|].
  rewrite string_match_module_null, (find_match_module_start _ Hnl).
  intros (ws0 & m & tok & ws & c & w & idp & Hshape).
  now apply (module_shape_matched _ _ _ _ _ _ _ _ Hshape).
Qed.

Lemma module_pattern_matches_iff_witness :
  string_match "  - [x] Pay rent ^r1" strictPattern <> MatchNull <->
  is_module_task_line (chars "  - [x] Pay rent ^r1").
Proof.
  apply (module_pattern_matches_iff "  - [x] Pay rent ^r1"). reflexivity.
Defined.

Lemma alnum_no_line_terminator id :
  forallb (cset_mem AlphaNum) id = true -> no_line_terminator id = true.
Proof.
  unfold no_line_terminator. induction id as [|a id IH]; [reflexivity|].
  cbn [forallb]. rewrite !andb_true_iff. intros [Ha Hid].
  split; [|now apply IH].
  destruct a as [[] [] [] [] [] [] [] []]; try discriminate Ha; reflexivity.
Qed.

Lemma module_line_is_task_line l :
  is_module_task_line l -> TaskLine.is_task_line l.
Proof.
  intros (ws0 & m & tok & ws & c & w & idp &
          -> & Hws0 & Hm & Htok & Hne & Hws & Hc & Hw & Hid).
  destruct Hid as [->|(id & Hne' & Hal & ->)].
  - exists ws0, m, tok, ws, c, w, []. unfold TaskLine.task_shape.
    split; [reflexivity|]. auto 10.
  - exists ws0, m, tok, ws, c, (w ++ [" "%char]), ("^"%char :: id).
    unfold TaskLine.task_shape. split.
    { now rewrite <- !app_assoc. }
    split; [assumption|]. split; [assumption|]. split; [assumption|].
    split; [assumption|]. split; [assumption|].
    split; [rewrite forallb_app, Hw; reflexivity|].
    split; [right; eauto|].
    now apply (alnum_no_line_terminator id).
Qed.

(** X18. The two patterns of the file agree in one direction: a line
    without line terminators that the pattern of [parseFileContents]
    matches is a line [parseLine] reads a task from. The converse fails,
    the pattern of [parseLine] not being anchored. *)
Theorem module_match_implies_parseLine
  (emptyTask : gmap string value) (line : string) :
  no_line_terminator (chars line) = true ->
  string_match line strictPattern <> MatchNull ->
  exists t, TaskParser.parseLine emptyTask line = Normal (Some t).
Proof.
  intros Hnl Hm. apply task_line_accepted.
  apply module_line_is_task_line. now apply module_match_shape.
Qed.

Lemma module_match_implies_parseLine_witness :
  exists t,
    TaskParser.parseLine ∅ "  - [x] Pay rent ^r1" = Normal (Some t).
Proof.
  apply (module_match_implies_parseLine ∅ "  - [x] Pay rent ^r1").
  - reflexivity.
  - vm_compute. discriminate.
Defined.

End ModulePattern.

(* ===================================================================== *)
(** ** Ignored paths *)
(* ===================================================================== *)

Section IgnoredPaths.
Import Js JsObj Plugin.

Lemma starts_with_spec p l :
  starts_with p l = true <-> exists b, l = p ++ b.
Proof.
  revert l. induction p as [|a p IH]; intros l; simpl.
  - split; [eauto|reflexivity].
  - destruct l as [|c l].
    + split; [discriminate|]. intros (b & H). discriminate.
    + rewrite andb_true_iff, Ascii.eqb_eq, IH. split.
      * intros (-> & b & ->). eauto.
      * intros (b & [= -> ->]). eauto.
Qed.

Lemma includes_chars_spec l p :
  includes_chars l p = true <-> exists a b, l = a ++ p ++ b.
Proof.
  induction l as [|c l IH]; cbn [includes_chars];
    rewrite orb_true_iff, starts_with_spec.
  - split.
    + intros [(b & H)|H]; [|discriminate]. exists [], b. exact H.
    + intros ([|x a] & b & H); [|discriminate]. left. eauto.
  - rewrite IH. split.
    + intros [(b & H)|(a & b & ->)].
      * exists [], b. exact H.
      * exists (c :: a), b. reflexivity.
    + intros ([|x a] & b & H).
      * left. eauto.
      * right. injection H as -> ->. eauto.
Qed.

Lemma filter_length_pos {A} (f : A -> bool) (l : list A) :
  Nat.ltb 0 (length (List.filter f l)) = true <->
  exists x, In x l /\ f x = true.
Proof.
  rewrite Nat.ltb_lt. split.
  - destruct (List.filter f l) as [|x l'] eqn:E; simpl; [lia|]. intros _.
    assert (H : In x (List.filter f l)) by (rewrite E; now left).
    apply filter_In in H. eauto.
  - intros (x & Hx & Hf).
    assert (H : In x (List.filter f l)) by (apply filter_In; auto).
    destruct (List.filter f l); [destruct H|simpl; lia].
Qed.

(** X10. [ignorePath] answers true exactly for the paths in which one of
    the ignored strings of the settings occurs, anywhere: at the start, in
    the middle of a folder or file name, or at the end. *)
Theorem ignorePath_substring {D} (p : Plugin D) (filePath : string) :
  ignorePath p filePath = true <->
  exists ignored a b,
    In ignored (ignoredPaths p) /\
    chars filePath = a ++ chars ignored ++ b.
Proof.
  unfold ignorePath. rewrite filter_length_pos. unfold includes. split.
  - intros (x & Hx & H). apply includes_chars_spec in H as (a & b & H).
    eauto 6.
  - intros (x & a & b & Hx & H). exists x. split; [assumption|].
    apply includes_chars_spec. eauto.
Qed.

End IgnoredPaths.

(* ===================================================================== *)
(** ** The two indexes [handleCacheChanged] compares *)
(* ===================================================================== *)

Section ComparedIndexes.
Import Js JsObj Plugin MainTs.

Variable instanceIndexKey : string -> nat -> string.
Variable taskLocationStr : TaskInstance -> string.

Lemma get_remove_ne {V} (o : jsobj V) k k' :
  k <> k' -> get (remove o k) k' = get o k'.
Proof.
  intros Hne. induction o as [|[k0 v] o IH]; simpl; [reflexivity|].
  destruct (String.eqb k k0) eqn:E.
  - apply String.eqb_eq in E. subst k0.
    destruct (String.eqb k' k) eqn:E'; [|assumption].
    apply String.eqb_eq in E'. congruence.
  - simpl. now rewrite IH.
Qed.

Lemma remove_sublist {V} (o : jsobj V) k : sublist (remove o k) o.
Proof.
  induction o as [|[k0 v] o IH]; simpl; [constructor|].
  destruct (String.eqb k k0); now constructor.
Qed.

Lemma strict_equals_true a b : strict_equals a b = true -> a = b.
Proof.
  unfold strict_equals.
  destruct a, b; try discriminate; intros H; now apply bool_decide_eq_true in H.
Qed.

(** X11. Dropping the anonymous task under the cursor: every entry under
    another key is kept, the entries that are kept stay in their order, an
    entry left under the cursor key is the one of the live index and has a
    uid other than 0, and dropping twice is dropping once. *)
Theorem dropCursorTask_spec
  (file : TAbstractFile) (line : nat) (fileInstanceIndex : TaskInstanceIndex) :
  let cursorLineKey := instanceIndexKey (path file) line in
  let dropped := dropCursorTask instanceIndexKey file line fileInstanceIndex in
  (forall k, k <> cursorLineKey -> get dropped k = get fileInstanceIndex k) /\
  (forall i, get dropped cursorLineKey = Some i ->
     get fileInstanceIndex cursorLineKey = Some i /\
     prop i "uid" <> Num 0) /\
  sublist dropped fileInstanceIndex /\
  dropCursorTask instanceIndexKey file line dropped = dropped.
Proof.
  intros key dropped. subst dropped. unfold dropCursorTask. fold key.
  unfold has.
  destruct (get fileInstanceIndex key) as [i|] eqn:Hget; cbn [andb].
  - destruct (strict_equals (prop i "uid") (Num 0)) eqn:Huid.
    + split; [intros k Hk; apply get_remove_ne; congruence|].
      split; [intros i' Hi'; rewrite get_remove_same in Hi'; discriminate|].
      split; [apply remove_sublist|].
      now rewrite get_remove_same.
    + split; [reflexivity|]. split.
      * intros i' Hi'. rewrite Hget in Hi'. injection Hi' as <-.
        split; [reflexivity|]. intros Hz. rewrite Hz in Huid. discriminate.
      * split; [reflexivity|]. now rewrite Hget, Huid.
  - split; [reflexivity|].
    split; [intros i' Hi'; rewrite Hget in Hi'; discriminate|].
    split; [reflexivity|]. now rewrite Hget.
Qed.

Lemma get_set_same {V} (o : jsobj V) k v : get (set o k v) k = Some v.
Proof.
  induction o as [|[k0 v0] o IH]; simpl.
  - now rewrite String.eqb_refl.
  - destruct (String.eqb k k0) eqn:E; simpl.
    + now rewrite String.eqb_refl.
    + now rewrite E.
Qed.

Lemma get_set_ne {V} (o : jsobj V) k k' v :
  k <> k' -> get (set o k v) k' = get o k'.
Proof.
  intros Hne. induction o as [|[k0 v0] o IH]; simpl.
  - destruct (String.eqb k' k) eqn:E; [|reflexivity].
    apply String.eqb_eq in E. congruence.
  - destruct (String.eqb k k0) eqn:E; simpl.
    + apply String.eqb_eq in E. subst k0.
      destruct (String.eqb k' k) eqn:E'; [|reflexivity].
      apply String.eqb_eq in E'. congruence.
    + now rewrite IH.
Qed.

Lemma keyed_fold_get (l : list TaskInstance) (acc : TaskInstanceIndex) k i :
  get (fold_left (fun idx i => set idx (taskLocationStr i) i) l acc) k
    = Some i ->
  (In i l /\ taskLocationStr i = k) \/ get acc k = Some i.
Proof.
  revert acc. induction l as [|x l IH]; intros acc; simpl; [auto|].
  intros H. apply IH in H as [[Hin Hk]|H]; [auto|].
  destruct (decide (taskLocationStr x = k)) as [<-|Hne].
  - rewrite get_set_same in H. injection H as <-. auto.
  - rewrite get_set_ne in H by assumption. auto.
Qed.

Lemma keyed_fold_has (l : list TaskInstance) (acc : TaskInstanceIndex) k :
  (is_Some (get acc k) \/ exists i, In i l /\ taskLocationStr i = k) ->
  is_Some (get (fold_left (fun idx i => set idx (taskLocationStr i) i) l acc)
             k).
Proof.
  revert acc. induction l as [|x l IH]; intros acc; simpl.
  - intros [H|(i & [] & _)]. exact H.
  - intros H. apply IH.
    destruct (decide (taskLocationStr x = k)) as [<-|Hne].
    + left. rewrite get_set_same. eauto.
    + rewrite get_set_ne by assumption.
      destruct H as [H|(i & [<-|Hin] & Hk)]; [auto|congruence|eauto].
Qed.

(** X12. The stored index [handleCacheChanged] compares the live one
    with: each of its entries is an instance of the task store whose
    filePath is the path of the document, under the key [taskLocationStr]
    gives it; and every such instance of the store has its key in it. *)
Theorem existingFileInstanceIndex_spec (p : State) (file : TAbstractFile) :
  (forall k i,
     get (existingFileInstanceIndex taskLocationStr p file) k = Some i ->
     In i (values (instanceIndex p)) /\
     prop i "filePath" = Str (path file) /\
     taskLocationStr i = k) /\
  (forall i,
     In i (values (instanceIndex p)) ->
     prop i "filePath" = Str (path file) ->
     is_Some (get (existingFileInstanceIndex taskLocationStr p file)
                (taskLocationStr i))).
Proof.
  unfold existingFileInstanceIndex. split.
  - intros k i H. apply keyed_fold_get in H as [[Hin Hk]|H];
      [|discriminate].
    apply filter_In in Hin as [Hin Hf].
    apply strict_equals_true in Hf. auto.
  - intros i Hin Hf. apply keyed_fold_has. right. exists i.
    split; [|reflexivity]. apply filter_In. split; [assumption|].
    rewrite Hf. unfold strict_equals. now apply bool_decide_eq_true.
Qed.

End ComparedIndexes.

(* ===================================================================== *)
(** ** More on the handlers of main.ts *)
(* ===================================================================== *)

Section HandlerFacts.
Import Js JsObj Plugin MainTs Pipeline Trace.

Variable hashFileTaskState : TaskInstanceIndex -> string.
Variable filterIndexByPath : string -> TaskInstanceIndex -> TaskInstanceIndex.
Variable instanceIndexKey : string -> nat -> string.
Variable taskLocationStr : TaskInstance -> string.

Local Abbreviation handleCC :=
  (handleCacheChanged hashFileTaskState instanceIndexKey taskLocationStr).
Local Abbreviation stepE :=
  (step hashFileTaskState filterIndexByPath instanceIndexKey taskLocationStr).
Local Abbreviation runE :=
  (run_events hashFileTaskState filterIndexByPath instanceIndexKey
     taskLocationStr).

(** What [handleCacheChanged] leaves as it finds it. *)
Lemma handle_frame h p file :
  let q := final (handleCC h p file) in
  ignoredPaths q = ignoredPaths p /\ indexFiles q = indexFiles p /\
  activeFile q = activeFile p /\ instanceIndex q = instanceIndex p /\
  taskIndex q = taskIndex p /\ published q = published p /\
  writes q = writes p.
Proof.
  unfold handleCacheChanged.
  destruct (otherViewActive h file); [repeat split|].
  destruct (notActiveFile p file || ignorePath p (path file));
    [repeat split|].
  destruct (testAndSetFileStatus _ _ _) as [ok states].
  destruct ok; cbn [negb]; [|repeat split].
  destruct (activeView h); [|repeat split].
  destruct (negb _); repeat split.
Qed.

(** X13. A change notification for the active file that arrives while no
    markdown view is active crashes [handleCacheChanged] of main.ts: when
    the path is not ignored and the status test lets the notification
    through, the cursor is read from a null view, which throws a TypeError
    before the document is read. Nothing has been dispatched by then, and
    the file states are the ones the status test left. *)
Theorem handleCacheChanged_null_view_throws
  (h : Host) (p : State) (file : TAbstractFile) :
  activeView h = None ->
  notActiveFile p file = false ->
  ignorePath p (path file) = false ->
  fst (testAndSetFileStatus (fileStates p) (path file) CLEAN) = true ->
  thrown (handleCC h p file) = Some TypeError /\
  no_dispatch p (handleCC h p file) /\
  fileStates (final (handleCC h p file))
    = snd (testAndSetFileStatus (fileStates p) (path file) CLEAN).
Proof.
  intros Hv Hn Hi Hok.
  unfold handleCacheChanged, otherViewActive. rewrite Hv, Hn, Hi.
  cbn [orb].
  destruct (testAndSetFileStatus _ _ _) as [ok states].
  cbn [fst] in Hok. subst ok. cbn [negb snd].
  split; [reflexivity|]. split; [|reflexivity]. repeat split.
Qed.

(** Past its tests, with a view and unlike hashes, the handler calls the
    debouncer of the path with the live index. *)
Lemma handle_edited h p file :
  listening p file ->
  edited hashFileTaskState instanceIndexKey taskLocationStr h p file ->
  exists live,
    liveIndex instanceIndexKey h file = Some live /\
    handleCC h p file =
    finished (callDebouncer p (path file) (MODIFY_FILE_TASKS live)).
Proof.
  intros (Hn & Hi & Hst) (Ho & live & Hl & Hne).
  exists live. split; [assumption|].
  unfold handleCacheChanged. rewrite Ho, Hn, Hi. cbn [orb].
  rewrite (testAndSet_not_dirty _ _ Hst). cbn [negb].
  rewrite with_fileStates_same.
  unfold liveIndex in Hl. destruct (activeView h) as [v|]; [|discriminate].
  injection Hl as Hl. rewrite Hl.
  destruct (String.eqb_spec (hashFileTaskState live)
              (hashFileTaskState
                 (existingFileInstanceIndex taskLocationStr p file)));
    [contradiction|reflexivity].
Qed.

Lemma callDebouncer_pending (p : State) filePath a :
  changeDebouncers (callDebouncer p filePath a) !! filePath = Some (Some a).
Proof.
  unfold callDebouncer. cbn [changeDebouncers with_changeDebouncers].
  apply lookup_insert_eq.
Qed.

(** X14. Notifications for an edited document are coalesced: however many
    of them are handled before the timer of the debouncer of the path runs
    out, nothing is published until then, and the timer publishes one
    MODIFY_FILE_TASKS with the live index of the last notification. A
    second timer for the path publishes nothing. The debouncer is
    Obsidian's, taken to make one trailing call with the arguments of the
    last call. *)
Theorem notifications_coalesce
  (p : State) (file : TAbstractFile) (hs : list Host) (h : Host)
  (live : TaskInstanceIndex) :
  listening p file ->
  Forall (fun h' =>
            edited hashFileTaskState instanceIndexKey taskLocationStr
              h' p file) (hs ++ [h]) ->
  liveIndex instanceIndexKey h file = Some live ->
  let notified :=
    runE p (map (fun h' => CacheChanged h' file) (hs ++ [h])) in
  published notified = published p /\
  published (stepE notified (TimerElapsed (path file)))
    = published p ++ [MODIFY_FILE_TASKS live] /\
  stepE (stepE notified (TimerElapsed (path file)))
    (TimerElapsed (path file))
    = stepE notified (TimerElapsed (path file)).
Proof.
  intros Hp Hall Hlive notified. subst notified.
  assert (Hrun : exists q,
            runE p (map (fun h' => CacheChanged h' file) (hs ++ [h])) = q /\
            published q = published p /\
            changeDebouncers q !! path file
              = Some (Some (MODIFY_FILE_TASKS live))).
  { revert p Hp Hall. induction hs as [|h0 hs IH]; intros p Hp Hall.
    - apply Forall_cons in Hall as [He _].
      destruct (handle_edited h p file Hp He) as (live' & Hl & E).
      rewrite Hlive in Hl. injection Hl as <-.
      eexists. split; [reflexivity|].
      cbn [app map run_events fold_left step]. rewrite E.
      cbn [final finished]. split; [reflexivity|].
      apply callDebouncer_pending.
    - change ((h0 :: hs) ++ [h]) with (h0 :: (hs ++ [h])) in *.
      apply Forall_cons in Hall as [He Hall].
      destruct (handle_edited h0 p file Hp He) as (live0 & Hl0 & E).
      cbn [map run_events fold_left step]. rewrite E. cbn [final finished].
      destruct (IH (callDebouncer p (path file) (MODIFY_FILE_TASKS live0)))
        as (q & Hq & Hpub & Hpend).
      + exact Hp.
      + exact Hall.
      + exists q. split; [exact Hq|]. split; [exact Hpub|exact Hpend]. }
  destruct Hrun as (q & -> & Hpub & Hpend).
  split; [exact Hpub|].
  cbn [step].
  assert (Hel : debouncerElapsed q (path file) =
                triggerFileCacheUpdate
                  (with_changeDebouncers q
                     (<[path file := None]> (changeDebouncers q)))
                  (MODIFY_FILE_TASKS live))
    by (unfold debouncerElapsed; now rewrite Hpend).
  rewrite Hel. split.
  - cbn [published triggerFileCacheUpdate with_changeDebouncers].
    now rewrite Hpub.
  - unfold debouncerElapsed.
    cbn [changeDebouncers triggerFileCacheUpdate with_changeDebouncers].
    now rewrite lookup_insert_eq.
Qed.

Lemma step_frame p e :
  let q := stepE p e in
  ignoredPaths q = ignoredPaths p /\ indexFiles q = indexFiles p /\
  instanceIndex q = instanceIndex p /\ taskIndex q = taskIndex p /\
  (exists l, published q = published p ++ l /\
             length l <= if may_publish e then 1 else 0) /\
  (exists l, writes q = writes p ++ l /\
             length l <= if may_write e then 1 else 0).
Proof.
  assert (Hnil : forall (A : Type) (l : list A) (n : nat),
            exists l', l = l ++ l' /\ length l' <= n).
  { intros A l n. exists []. rewrite app_nil_r. simpl. split; [auto|lia]. }
  assert (Hone : forall (A : Type) (l : list A) (x : A),
            exists l', l ++ [x] = l ++ l' /\ length l' <= 1).
  { intros A l x. exists [x]. auto. }
  destruct e as [h file|h file|f|f oldPath|filePath]; cbn [step].
  - unfold onFileOpen. destruct file as [file|]; [|repeat split; cbn; auto].
    destruct (ignorePath p (path file)); [repeat split; cbn; auto|].
    destruct (negb _); [|repeat split; cbn; auto].
    destruct (decide _); repeat split; cbn; auto.
  - destruct (handle_frame h p file) as (H1 & H2 & _ & H3 & H4 & H5 & H6).
    repeat split; try assumption.
    + rewrite H5. auto.
    + rewrite H6. auto.
  - unfold handleFileDeleted. destruct (isTFile f); [|repeat split; cbn; auto].
    destruct (getFileStateHash _ _); repeat split; cbn; auto.
  - unfold handleFileRenamed.
    destruct (getFileStateHash _ _); repeat split; cbn; auto.
  - unfold debouncerElapsed.
    destruct (changeDebouncers p !! filePath) as [[a|]|];
      repeat split; cbn; auto.
Qed.

(** X15. Over any sequence of events, what the handlers of main.ts have
    handed to [triggerFileCacheUpdate] and what they have written stays,
    in its order; at most one action is added for each deletion, rename or
    timer and none for a file-open or a change notification, and at most
    one write is made for each file-open and none for the other events. *)
Theorem run_events_append_only (p : State) (es : list event) :
  let q := runE p es in
  (exists l, published q = published p ++ l /\
             length l <= length (List.filter may_publish es)) /\
  (exists l, writes q = writes p ++ l /\
             length l <= length (List.filter may_write es)).
Proof.
  revert p. induction es as [|e es IH]; intros p.
  - cbn. split; exists []; rewrite app_nil_r; auto.
  - cbn [run_events fold_left List.filter].
    destruct (step_frame p e)
      as (_ & _ & _ & _ & (l1 & Hp1 & Hl1) & (w1 & Hw1 & Hlw1)).
    destruct (IH (stepE p e)) as ((l2 & Hp2 & Hl2) & (w2 & Hw2 & Hlw2)).
    unfold run_events in *. split.
    + exists (l1 ++ l2). rewrite Hp2, Hp1, <- app_assoc.
      split; [reflexivity|]. rewrite length_app.
      destruct (may_publish e); simpl in *; lia.
    + exists (w1 ++ w2). rewrite Hw2, Hw1, <- app_assoc.
      split; [reflexivity|]. rewrite length_app.
      destruct (may_write e); simpl in *; lia.
Qed.

End HandlerFacts.

Lemma handleCacheChanged_null_view_throws_witness :
  Plugin.thrown
    (MainTs.handleCacheChanged Examples.hashKeys Examples.keyOf
       Examples.locationOf (Examples.host None)
       (Examples.activeD Plugin.CLEAN) Examples.fileD)
    = Some Js.TypeError /\
  MainTs.no_dispatch (Examples.activeD Plugin.CLEAN)
    (MainTs.handleCacheChanged Examples.hashKeys Examples.keyOf
       Examples.locationOf (Examples.host None)
       (Examples.activeD Plugin.CLEAN) Examples.fileD) /\
  Plugin.fileStates
    (Plugin.final
       (MainTs.handleCacheChanged Examples.hashKeys Examples.keyOf
          Examples.locationOf (Examples.host None)
          (Examples.activeD Plugin.CLEAN) Examples.fileD))
  = snd (Plugin.testAndSetFileStatus
           (Plugin.fileStates (Examples.activeD Plugin.CLEAN))
           (Plugin.path Examples.fileD) Plugin.CLEAN).
Proof.
  apply (handleCacheChanged_null_view_throws Examples.hashKeys Examples.keyOf
           Examples.locationOf (Examples.host None)
           (Examples.activeD Plugin.CLEAN) Examples.fileD);
    vm_compute; reflexivity.
Defined.

Lemma notifications_coalesce_witness :
  let notified :=
    Pipeline.run_events Examples.hashKeys Examples.entriesOf Examples.keyOf
      Examples.locationOf (Examples.activeD Plugin.CLEAN)
      (map (fun h' => Pipeline.CacheChanged h' Examples.fileD)
         ([Examples.host (Some (Plugin.mkView Examples.fileD 0))]
          ++ [Examples.host (Some (Plugin.mkView Examples.fileD 1))])) in
  Plugin.published notified
    = Plugin.published (Examples.activeD Plugin.CLEAN) /\
  Plugin.published
    (Pipeline.step Examples.hashKeys Examples.entriesOf Examples.keyOf
       Examples.locationOf notified
       (Pipeline.TimerElapsed (Plugin.path Examples.fileD)))
    = Plugin.published (Examples.activeD Plugin.CLEAN)
      ++ [Plugin.MODIFY_FILE_TASKS Examples.liveD] /\
  Pipeline.step Examples.hashKeys Examples.entriesOf Examples.keyOf
    Examples.locationOf
    (Pipeline.step Examples.hashKeys Examples.entriesOf Examples.keyOf
       Examples.locationOf notified
       (Pipeline.TimerElapsed (Plugin.path Examples.fileD)))
    (Pipeline.TimerElapsed (Plugin.path Examples.fileD))
  = Pipeline.step Examples.hashKeys Examples.entriesOf Examples.keyOf
      Examples.locationOf notified
      (Pipeline.TimerElapsed (Plugin.path Examples.fileD)).
Proof.
  apply (notifications_coalesce Examples.hashKeys Examples.entriesOf
           Examples.keyOf Examples.locationOf (Examples.activeD Plugin.CLEAN)
           Examples.fileD
           [Examples.host (Some (Plugin.mkView Examples.fileD 0))]
           (Examples.host (Some (Plugin.mkView Examples.fileD 1)))
           Examples.liveD).
  - split; [reflexivity|]. split; [reflexivity|].
    intros st H. vm_compute in H. injection H as <-. reflexivity.
  - repeat constructor;
      (exists Examples.liveD; split; [reflexivity|];
       vm_compute; discriminate).
  - reflexivity.
Defined.

(* ===================================================================== *)
(** ** The scan of the vault *)
(* ===================================================================== *)

Section VaultScan.
Import Js JsObj Plugin ProcessVault.

Lemma scan_fold {A B} (skip : A -> bool) (g : A -> list B) l acc :
  fold_left (fun acc f => if skip f then acc else acc ++ g f) l acc
  = acc ++ flat_map g (List.filter (fun f => negb (skip f)) l).
Proof.
  revert acc. induction l as [|f l IH]; intros acc; simpl.
  - now rewrite app_nil_r.
  - rewrite IH. destruct (skip f); simpl; [reflexivity|].
    now rewrite <- app_assoc.
Qed.

Lemma includes_empty s : includes s "" = true.
Proof. unfold includes. now destruct (chars s). Qed.

(** X16. A first run of [processVault] of main.ts initializes the task
    store once, with the instances of the tasks directory followed by the
    instances of the markdown files, in the order of the vault, that are
    neither ignored nor have the name of the tasks directory anywhere in
    their path; it then sets [vaultLoaded], and a run that starts after it
    has ended does nothing. With an empty [taskDirectoryName] no markdown
    file is read. Each run is taken as one step. *)
Theorem processVault_initializes {D} (h : VaultHost) (v : Vault D) :
  vaultLoaded v = false ->
  let read :=
    List.filter
      (fun file =>
         negb (includes (path file) (taskDirectoryName v)
               || ignorePath (plugin v) (path file)))
      (getMarkdownFiles h) in
  initialized (processVault h v) =
    initialized v
    ++ [processTasksDirectory h
        ++ flat_map (fun file => values (readMarkdownFile h file)) read] /\
  vaultLoaded (processVault h v) = true /\
  (forall h', processVault h' (processVault h v) = processVault h v) /\
  (taskDirectoryName v = "" -> read = []).
Proof.
  intros Hl read. unfold processVault. rewrite Hl.
  cbn [initialized vaultLoaded]. unfold scanMarkdownFiles.
  rewrite (scan_fold
             (fun file => includes (path file) (taskDirectoryName v)
                          || ignorePath (plugin v) (path file))
             (fun file => values (readMarkdownFile h file))).
  split; [reflexivity|]. split; [reflexivity|]. split; [reflexivity|].
  intros He. subst read. rewrite He.
  induction (getMarkdownFiles h) as [|f l IH]; [reflexivity|].
  cbn [List.filter]. now rewrite includes_empty.
Qed.

Lemma processVault_initializes_witness :
  let read :=
    List.filter
      (fun file =>
         negb (includes (path file)
                 (taskDirectoryName VaultExamples.exampleVault)
               || ignorePath (plugin VaultExamples.exampleVault) (path file)))
      (getMarkdownFiles VaultExamples.exampleVaultHost) in
  initialized
    (processVault VaultExamples.exampleVaultHost VaultExamples.exampleVault) =
    initialized VaultExamples.exampleVault
    ++ [processTasksDirectory VaultExamples.exampleVaultHost
        ++ flat_map
             (fun file =>
                values (readMarkdownFile VaultExamples.exampleVaultHost file))
             read] /\
  vaultLoaded
    (processVault VaultExamples.exampleVaultHost VaultExamples.exampleVault)
    = true /\
  (forall h',
     processVault h'
       (processVault VaultExamples.exampleVaultHost
          VaultExamples.exampleVault)
     = processVault VaultExamples.exampleVaultHost
         VaultExamples.exampleVault) /\
  (taskDirectoryName VaultExamples.exampleVault = "" -> read = []).
Proof.
  apply (processVault_initializes VaultExamples.exampleVaultHost
           VaultExamples.exampleVault).
  reflexivity.
Defined.

(** In the example vault the task file and the draft are skipped, and the
    two documents are read in the order of the vault. *)
Lemma exampleVault_read :
  List.filter
    (fun file =>
       negb (includes (path file)
               (taskDirectoryName VaultExamples.exampleVault)
             || ignorePath (plugin VaultExamples.exampleVault) (path file)))
    (getMarkdownFiles VaultExamples.exampleVaultHost)
  = [Examples.fileD; Examples.fileE].
Proof. vm_compute. reflexivity. Qed.

(** X17. The second copy of the plugin class scans without the test of
    [ignorePath]: what main.ts reads is what the second copy reads from
    the files that are not ignored, so its instances are among those of
    the second copy, in the same order, and the two agree when no path is
    ignored. *)
Theorem scan_refines_second_copy {D} (h : VaultHost) (v : Vault D) :
  scanMarkdownFiles h v =
    scanMarkdownFiles001
      (mkVaultHost
         (List.filter
            (fun file => negb (ignorePath (plugin v) (path file)))
            (getMarkdownFiles h))
         (processTasksDirectory h) (readMarkdownFile h)) v /\
  sublist (scanMarkdownFiles h v) (scanMarkdownFiles001 h v) /\
  (ignoredPaths (plugin v) = [] ->
   processVault h v = processVault001 h v).
Proof.
  unfold scanMarkdownFiles, scanMarkdownFiles001.
  cbn [getMarkdownFiles readMarkdownFile].
  rewrite !(scan_fold _ (fun file => values (readMarkdownFile h file))).
  cbn [app].
  split; [|split].
  - induction (getMarkdownFiles h) as [|f l IH]; [reflexivity|].
    cbn [List.filter].
    destruct (ignorePath (plugin v) (path f)); cbn [negb].
    + rewrite orb_true_r. exact IH.
    + rewrite orb_false_r. cbn [List.filter].
      destruct (includes _ _); cbn [negb flat_map]; [exact IH|].
      now rewrite IH.
  - induction (getMarkdownFiles h) as [|f l IH]; [constructor|].
    cbn [List.filter].
    destruct (includes (path f) (taskDirectoryName v)); cbn [orb negb];
      [exact IH|].
    destruct (ignorePath (plugin v) (path f)); cbn [negb flat_map].
    + apply sublist_inserts_l. exact IH.
    + apply sublist_app; [reflexivity|exact IH].
  - intros Hnone. unfold processVault, processVault001.
    destruct (vaultLoaded v); [reflexivity|].
    assert (Hscan : scanMarkdownFiles h v = scanMarkdownFiles001 h v).
    { unfold scanMarkdownFiles, scanMarkdownFiles001.
      rewrite !(scan_fold _ (fun file => values (readMarkdownFile h file))).
      f_equal. f_equal. apply filter_ext. intros f.
      unfold ignorePath. rewrite Hnone. cbn. now rewrite orb_false_r. }
    now rewrite Hscan.
Qed.

End VaultScan.
